(** * CKAN Toolbox: the CSV type-inference engine and the schema helpers

    A shallow embedding of [main.js] (detectType, chooseType,
    generateDataDictionary) and of the pure parts of [ckan.js]
    (setDataDictionary, schemaDict, compareSchemas), followed by the
    properties of the specification that concern them. *)

From Stdlib Require Import List NArith ZArith Bool Lia Ascii.
From Stdlib Require Import Permutation Sorted.
From Stdlib Require String.
Import ListNotations.
Import String.StringSyntax.
Delimit Scope string_scope with string.

(* ===================================================================== *)
(** ** JavaScript strings, cell values and plain objects *)
(* ===================================================================== *)

Module JS.

(** A JavaScript string is a sequence of UTF-16 code units. *)
Definition jsstring := list N.

Definition cu (a : ascii) : N := N_of_ascii a.
Arguments cu a%_char.

(** ASCII literals of the source text. *)
Definition lit (s : String.string) : jsstring :=
  map cu (String.list_ascii_of_string s).
Arguments lit s%_string.

(** [a === b] on two strings. *)
Fixpoint str_eqb (a b : jsstring) : bool :=
  match a, b with
  | [], [] => true
  | x :: a', y :: b' => N.eqb x y && str_eqb a' b'
  | _, _ => false
  end.

(** [a <= b] in the code-unit order that [Array.prototype.sort] uses when
    it is called without a comparator. *)
Fixpoint str_leb (a b : jsstring) : bool :=
  match a, b with
  | [], _ => true
  | _ :: _, [] => false
  | x :: a', y :: b' =>
      if N.ltb x y then true
      else if N.eqb x y then str_leb a' b'
      else false
  end.

(** WhiteSpace and LineTerminator code points of ECMAScript, the ones
    [String.prototype.trim] strips. *)
Definition is_white_space (c : N) : bool :=
  ((9 <=? c) && (c <=? 13) || (c =? 32) || (c =? 160) || (c =? 5760)
   || (8192 <=? c) && (c <=? 8202) || (c =? 8232) || (c =? 8233)
   || (c =? 8239) || (c =? 8287) || (c =? 12288) || (c =? 65279))%N.

Fixpoint trimStart (s : jsstring) : jsstring :=
  match s with
  | [] => []
  | c :: r => if is_white_space c then trimStart r else s
  end.

Definition trimEnd (s : jsstring) : jsstring := rev (trimStart (rev s)).

Definition trim (s : jsstring) : jsstring := trimEnd (trimStart s).

(** [arr.includes(s)] on an array of strings. *)
Definition includes (arr : list jsstring) (s : jsstring) : bool :=
  existsb (fun x => str_eqb x s) arr.

(** [arr.join()]: the elements separated by a comma. *)
Fixpoint join (arr : list jsstring) : jsstring :=
  match arr with
  | [] => []
  | [x] => x
  | x :: rest => x ++ lit "," ++ join rest
  end.

(** Insertion of [x] into a list ordered by [leb], after the elements that
    are not above it (so that the sort is stable). *)
Fixpoint insert_sorted {A : Type} (leb : A -> A -> bool) (x : A) (l : list A)
  : list A :=
  match l with
  | [] => [x]
  | y :: r => if leb y x then y :: insert_sorted leb x r else x :: l
  end.

Definition sort_by {A : Type} (leb : A -> A -> bool) (l : list A) : list A :=
  fold_left (fun acc x => insert_sorted leb x acc) l [].

(** [arr.sort()] on an array of strings.  The result of the default sort is
    the code-unit ordered arrangement of the array, whatever algorithm the
    engine runs. *)
Definition sort (arr : list jsstring) : list jsstring := sort_by str_leb arr.

(** What [row[header]] yields on a table parsed with [header: true,
    dynamicTyping: false]: a string; [undefined] when neither the row nor
    its prototype has the key; an object or a function, which is what a
    member inherited from [Object.prototype] is, given with the string that
    its conversion to a primitive yields.  [null] is kept because the
    source tests for it. *)
Inductive value :=
| VUndefined
| VNull
| VString (s : jsstring)
| VObject (text : jsstring).

(** [v === s] for a string literal [s]. *)
Definition strict_eq_str (v : value) (s : jsstring) : bool :=
  match v with
  | VString x => str_eqb x s
  | _ => false
  end.

(** [v == null]: true of [null] and of [undefined]. *)
Definition loose_eq_null (v : value) : bool :=
  match v with
  | VUndefined | VNull => true
  | VString _ | VObject _ => false
  end.

(** [v === null]. *)
Definition strict_eq_null (v : value) : bool :=
  match v with
  | VNull => true
  | _ => false
  end.

(** The string that a value is converted to when a string is expected. *)
Definition ToString (v : value) : jsstring :=
  match v with
  | VUndefined => lit "undefined"
  | VNull => lit "null"
  | VString s => s
  | VObject text => text
  end.

(** A plain object: its own properties in creation order. *)
Definition object (V : Type) := list (jsstring * V).

Definition is_digit (c : N) : bool := ((48 <=? c) && (c <=? 57))%N.

Definition digits_value (s : jsstring) : N :=
  fold_left (fun acc c => (10 * acc + (c - 48))%N) s 0%N.

(** A property key is an array index when it is the canonical decimal
    numeral of an integer below 2^32 - 1. *)
Definition array_index (k : jsstring) : option N :=
  match k with
  | [] => None
  | c :: r =>
      if forallb is_digit k
         && (negb (N.eqb c 48) || match r with [] => true | _ => false end)
         && (N.ltb (digits_value k) 4294967295)
      then Some (digits_value k)
      else None
  end.

Definition is_array_index (k : jsstring) : bool :=
  match array_index k with Some _ => true | None => false end.

Definition index_leb (a b : jsstring) : bool :=
  match array_index a, array_index b with
  | Some i, Some j => N.leb i j
  | _, _ => true
  end.

(** [Object.keys(o)]: the array-index keys in ascending numeric order, then
    the other keys in creation order. *)
Definition Object_keys {V : Type} (o : object V) : list jsstring :=
  sort_by index_leb (filter is_array_index (map fst o))
  ++ filter (fun k => negb (is_array_index k)) (map fst o).

(** [o[k]] on the own properties of [o]; [None] stands for what the lookup
    of a name that [o] does not own yields, [undefined] or a member of
    [Object.prototype], in either case no string. *)
Fixpoint get {V : Type} (o : object V) (k : jsstring) : option V :=
  match o with
  | [] => None
  | (k', v) :: r => if str_eqb k' k then Some v else get r k
  end.

(** [o[k] = v]: an existing property keeps its place, a new one is
    created last. *)
Fixpoint set {V : Type} (o : object V) (k : jsstring) (v : V) : object V :=
  match o with
  | [] => [(k, v)]
  | (k', v') :: r =>
      if str_eqb k' k then (k', v) :: r else (k', v') :: set r k v
  end.

(** The text of a built-in function, as V8 and JavaScriptCore print it
    (every host begins it with the word [function]). *)
Definition nativeFunction (name : jsstring) : value :=
  VObject (lit "function " ++ name ++ lit "() { [native code] }").

(** The members that a plain object inherits from [Object.prototype]: the
    built-in methods, and under [__proto__] the prototype itself. *)
Definition Object_prototype : object value :=
  [ (lit "constructor", nativeFunction (lit "Object"));
    (lit "__defineGetter__", nativeFunction (lit "__defineGetter__"));
    (lit "__defineSetter__", nativeFunction (lit "__defineSetter__"));
    (lit "hasOwnProperty", nativeFunction (lit "hasOwnProperty"));
    (lit "__lookupGetter__", nativeFunction (lit "__lookupGetter__"));
    (lit "__lookupSetter__", nativeFunction (lit "__lookupSetter__"));
    (lit "isPrototypeOf", nativeFunction (lit "isPrototypeOf"));
    (lit "propertyIsEnumerable", nativeFunction (lit "propertyIsEnumerable"));
    (lit "toString", nativeFunction (lit "toString"));
    (lit "valueOf", nativeFunction (lit "valueOf"));
    (lit "__proto__", VObject (lit "[object Object]"));
    (lit "toLocaleString", nativeFunction (lit "toLocaleString")) ].

(** [Object.fromEntries(entries)]. *)
Definition Object_fromEntries {V : Type} (entries : list (jsstring * V))
  : object V :=
  fold_left (fun o kv => set o (fst kv) (snd kv)) entries [].

End JS.

(* ===================================================================== *)
(** ** Regular expressions of the source *)
(* ===================================================================== *)

Module Regex.

Inductive regex :=
| Void
| Eps
| Chr (c : N)
| Digit
| Seq (a b : regex)
| Alt (a b : regex)
| Star (a : regex).

(** [a?] and [a+]. *)
Definition Opt (a : regex) : regex := Alt a Eps.
Definition Plus (a : regex) : regex := Seq a (Star a).

Fixpoint nullable (r : regex) : bool :=
  match r with
  | Void => false
  | Eps => true
  | Chr _ => false
  | Digit => false
  | Seq a b => nullable a && nullable b
  | Alt a b => nullable a || nullable b
  | Star _ => true
  end.

(** What remains of [r] to be matched once the code unit [c] is read. *)
Fixpoint deriv (c : N) (r : regex) : regex :=
  match r with
  | Void => Void
  | Eps => Void
  | Chr d => if N.eqb c d then Eps else Void
  | Digit => if JS.is_digit c then Eps else Void
  | Seq a b =>
      if nullable a then Alt (Seq (deriv c a) b) (deriv c b)
      else Seq (deriv c a) b
  | Alt a b => Alt (deriv c a) (deriv c b)
  | Star a => Seq (deriv c a) (Star a)
  end.

(** [/^r$/.test(s)]: without the [m] flag the two anchors make the pattern
    match the whole string. *)
Definition test (r : regex) (s : JS.jsstring) : bool :=
  nullable (fold_left (fun r c => deriv c r) s r).

(** The language of a pattern. *)
Fixpoint lang (r : regex) (s : JS.jsstring) : Prop :=
  match r with
  | Void => False
  | Eps => s = []
  | Chr c => s = [c]
  | Digit => exists c, s = [c] /\ JS.is_digit c = true
  | Seq a b => exists s1 s2, s = s1 ++ s2 /\ lang a s1 /\ lang b s2
  | Alt a b => lang a s \/ lang b s
  | Star a => exists ss, s = List.concat ss /\ Forall (lang a) ss
  end.

(** [/^-?\d+$/] *)
Definition INT_RE : regex := Seq (Opt (Chr (JS.cu "-"))) (Plus Digit).

(** [/^-?\d*\.\d+$/] *)
Definition FLOAT_RE : regex :=
  Seq (Opt (Chr (JS.cu "-")))
      (Seq (Star Digit) (Seq (Chr (JS.cu ".")) (Plus Digit))).

End Regex.

(* ===================================================================== *)
(** ** The [Date] object of the host *)
(* ===================================================================== *)

Module HostDate.

(** What the classifier takes from its host: [Date.parse], whose grammar
    outside the ISO format is left to the engine ([None] stands for [NaN],
    a time value is in milliseconds since the epoch, UTC), and the local
    time zone adjustment at a time value, in milliseconds. *)
Record Runtime := {
  Date_parse : JS.jsstring -> option Z;
  LocalTZA : Z -> Z
}.

Local Open Scope Z_scope.

Definition msPerSecond : Z := 1000.
Definition msPerMinute : Z := 60000.
Definition msPerHour : Z := 3600000.
Definition msPerDay : Z := 86400000.

Definition LocalTime (rt : Runtime) (t : Z) : Z := t + LocalTZA rt t.

Definition HourFromTime (t : Z) : Z := (t / msPerHour) mod 24.
Definition MinFromTime (t : Z) : Z := (t / msPerMinute) mod 60.
Definition SecFromTime (t : Z) : Z := (t / msPerSecond) mod 60.

(** [d.getHours()], [d.getMinutes()], [d.getSeconds()] of a valid date of
    time value [t]: fields of the local time. *)
Definition getHours (rt : Runtime) (t : Z) : Z := HourFromTime (LocalTime rt t).
Definition getMinutes (rt : Runtime) (t : Z) : Z := MinFromTime (LocalTime rt t).
Definition getSeconds (rt : Runtime) (t : Z) : Z := SecFromTime (LocalTime rt t).

(** The date-only form [YYYY-MM-DD] of the ISO format, which ECMAScript
    reads as midnight UTC of that day. *)
Definition DayFromYear (y : Z) : Z :=
  365 * (y - 1970) + (y - 1969) / 4 - (y - 1901) / 100 + (y - 1601) / 400.

Definition InLeapYear (y : Z) : bool :=
  (y mod 4 =? 0) && (negb (y mod 100 =? 0) || (y mod 400 =? 0)).

Definition DaysInMonth (y m : Z) : Z :=
  if m =? 2 then (if InLeapYear y then 29 else 28)
  else if (m =? 4) || (m =? 6) || (m =? 9) || (m =? 11) then 30
  else 31.

Fixpoint DaysBeforeMonth (y : Z) (m : nat) : Z :=
  match m with
  | O => 0
  | S m' => DaysBeforeMonth y m' + DaysInMonth y (Z.of_nat m)
  end.

(** Day number of the [d]-th day of month [m] (1 to 12) of year [y]. *)
Definition MakeDay (y m d : Z) : Z :=
  DayFromYear y + DaysBeforeMonth y (Z.to_nat (m - 1)) + d - 1.

Definition digit (c : N) : Z := Z.of_N c - 48.

Definition iso_date_only (s : JS.jsstring) : option Z :=
  match s with
  | [y1; y2; y3; y4; dash1; m1; m2; dash2; d1; d2] =>
      let y := 1000 * digit y1 + 100 * digit y2 + 10 * digit y3 + digit y4 in
      let m := 10 * digit m1 + digit m2 in
      let d := 10 * digit d1 + digit d2 in
      if forallb JS.is_digit [y1; y2; y3; y4; m1; m2; d1; d2]
         && N.eqb dash1 (JS.cu "-") && N.eqb dash2 (JS.cu "-")
         && (1 <=? m) && (m <=? 12) && (1 <=? d) && (d <=? DaysInMonth y m)
      then Some (MakeDay y m d * msPerDay)
      else None
  | _ => None
  end.

(** A host that reads the date-only ISO form and nothing else, in a zone
    whose offset from UTC is constant. *)
Definition iso_host (offset_ms : Z) : Runtime :=
  {| Date_parse := iso_date_only; LocalTZA := fun _ => offset_ms |}.

End HostDate.

(* ===================================================================== *)
(** ** main.js *)
(* ===================================================================== *)

Module Main.

Import JS.

(** The six type names that [detectType] returns and [typeCounts] is keyed
    by. *)
Inductive TypeTag := Ttext | Tint | Tfloat | Tbool | Tdatetime | Tdate.

Definition tag_name (t : TypeTag) : jsstring :=
  match t with
  | Ttext => lit "text"
  | Tint => lit "int"
  | Tfloat => lit "float"
  | Tbool => lit "bool"
  | Tdatetime => lit "datetime"
  | Tdate => lit "date"
  end.

(** [typeCounts]: one counter per type name, in the order of the object
    literal [{ text: 0, int: 0, float: 0, bool: 0, datetime: 0, date: 0 }]. *)
Record TypeCounts := {
  c_text : nat;
  c_int : nat;
  c_float : nat;
  c_bool : nat;
  c_datetime : nat;
  c_date : nat
}.

Definition zeroCounts : TypeCounts :=
  {| c_text := 0; c_int := 0; c_float := 0; c_bool := 0;
     c_datetime := 0; c_date := 0 |}.

(** [typeCounts[type]] *)
Definition count (tc : TypeCounts) (t : TypeTag) : nat :=
  match t with
  | Ttext => c_text tc
  | Tint => c_int tc
  | Tfloat => c_float tc
  | Tbool => c_bool tc
  | Tdatetime => c_datetime tc
  | Tdate => c_date tc
  end.

(** [typeCounts[type] = n] *)
Definition setCount (tc : TypeCounts) (t : TypeTag) (n : nat) : TypeCounts :=
  match t with
  | Ttext =>
      {| c_text := n; c_int := c_int tc; c_float := c_float tc;
         c_bool := c_bool tc; c_datetime := c_datetime tc; c_date := c_date tc |}
  | Tint =>
      {| c_text := c_text tc; c_int := n; c_float := c_float tc;
         c_bool := c_bool tc; c_datetime := c_datetime tc; c_date := c_date tc |}
  | Tfloat =>
      {| c_text := c_text tc; c_int := c_int tc; c_float := n;
         c_bool := c_bool tc; c_datetime := c_datetime tc; c_date := c_date tc |}
  | Tbool =>
      {| c_text := c_text tc; c_int := c_int tc; c_float := c_float tc;
         c_bool := n; c_datetime := c_datetime tc; c_date := c_date tc |}
  | Tdatetime =>
      {| c_text := c_text tc; c_int := c_int tc; c_float := c_float tc;
         c_bool := c_bool tc; c_datetime := n; c_date := c_date tc |}
  | Tdate =>
      {| c_text := c_text tc; c_int := c_int tc; c_float := c_float tc;
         c_bool := c_bool tc; c_datetime := c_datetime tc; c_date := n |}
  end.

(** [n || 0] on a number. *)
Definition or_zero (n : nat) : nat := if Nat.eqb n 0 then 0 else n.

(** [Object.entries(typeCounts)] *)
Definition Object_entries (tc : TypeCounts) : list (TypeTag * nat) :=
  [ (Ttext, c_text tc); (Tint, c_int tc); (Tfloat, c_float tc);
    (Tbool, c_bool tc); (Tdatetime, c_datetime tc); (Tdate, c_date tc) ].

(** One entry of the dictionary. *)
Record Entry := {
  column : jsstring;
  type : TypeTag;
  example : value;
  description : jsstring
}.

(** What [generateDataDictionary] returns: the object literal [{}] or an
    array of entries. *)
Inductive Dictionary :=
| DObject (props : object value)
| DArray (entries : list Entry).

(** [row[header]]: the own property of the row; failing that, the member
    of that name that the row inherits from [Object.prototype]; failing
    that, [undefined]. *)
Definition row_get (row : object value) (header : jsstring) : value :=
  match get row header with
  | Some v => v
  | None =>
      match get Object_prototype header with
      | Some member => member
      | None => VUndefined
      end
  end.

Section WithHost.

Variable rt : HostDate.Runtime.

(** [includes], the two [test] and [new Date] are given [value] as it is:
    [includes] compares without conversion, so that it finds strings only;
    [test] and [Date] convert what is not a string to one. *)
Definition detectType (value : value) : TypeTag :=
  if strict_eq_str value (lit "")
     || loose_eq_null value
     || match value with
        | VString s => str_eqb (trim s) (lit "")
        | _ => false
        end
     || strict_eq_str value (lit "NA")
     || strict_eq_str value (lit "NULL")
  then Ttext
  else if match value with
          | VString s =>
              includes [lit "true"; lit "false"; lit "True"; lit "False";
                        lit "0"; lit "1"] s
          | _ => false
          end
  then Tbool
  else if Regex.test Regex.INT_RE (ToString value) then Tint
  else if Regex.test Regex.FLOAT_RE (ToString value) then Tfloat
  else
    match HostDate.Date_parse rt (ToString value) with
    | Some t =>
        if (HostDate.getHours rt t =? 0)%Z
           && (HostDate.getMinutes rt t =? 0)%Z
           && (HostDate.getSeconds rt t =? 0)%Z
        then Tdate
        else Tdatetime
    | None => Ttext
    end.

(** The body of [data.forEach((row) => ...)] on the two variables it
    updates. *)
Definition scanRow (header : jsstring) (st : TypeCounts * value)
  (row : object value) : TypeCounts * value :=
  let '(typeCounts, example) := st in
  let value := row_get row header in
  let example :=
    if negb (strict_eq_str value (lit "")) && negb (loose_eq_null value)
       && strict_eq_null example
    then value else example in
  let detectedType := detectType value in
  (setCount typeCounts detectedType (or_zero (count typeCounts detectedType) + 1),
   example).

(** [typeCounts] and [example] of a column once every row is visited. *)
Definition scanColumn (header : jsstring) (data : list (object value))
  : TypeCounts * value :=
  fold_left (scanRow header) data (zeroCounts, VNull).

Definition chooseType (typeCounts : TypeCounts) : TypeTag :=
  snd (fold_left
         (fun (st : nat * TypeTag) (e : TypeTag * nat) =>
            let '(max, selected) := st in
            let '(type, count) := e in
            if Nat.ltb max count then (count, type) else (max, selected))
         (Object_entries typeCounts) (0, Ttext)).

Definition generateDataDictionary (data : list (object value)) : Dictionary :=
  match data with
  | [] => DObject []
  | row0 :: _ =>
      DArray
        (map (fun header =>
                let '(typeCounts, example) := scanColumn header data in
                {| column := header;
                   type := chooseType typeCounts;
                   example := example;
                   description := lit "" |})
             (Object_keys row0))
  end.

End WithHost.

End Main.

(* ===================================================================== *)
(** ** ckan.js *)
(* ===================================================================== *)

Module Ckan.

Import JS.

(** A field of a datastore schema: [{ id, type, info?: { label?, notes?,
    example? } }]. *)
Record FieldInfo := {
  label : option jsstring;
  notes : option jsstring;
  example : option jsstring
}.

Record Field := {
  id : jsstring;
  type : jsstring;
  info : option FieldInfo
}.

(** The payloads the helpers build. *)
Inductive Payload :=
| DatastoreSearch (resource_id : jsstring) (limit : Z)
| DatastoreCreate (resource_id : jsstring) (fields : list Field) (force : bool).

(** One call of [ckanCall(site, action, payload, apiKey)]. *)
Record Request := {
  site : jsstring;
  action : jsstring;
  payload : Payload;
  apiKey : jsstring
}.

(** [data.result] of an answer, of which the helpers read [fields]. *)
Record Result := { fields : list Field }.

(** An asynchronous computation: it is resolved, or it awaits the answer
    of the portal to a call and goes on with it. *)
Inductive Async (A : Type) : Type :=
| Resolve (a : A)
| Await (r : Request) (k : Result -> Async A).

Arguments Resolve {A} a.
Arguments Await {A} r k.

Fixpoint bind {A B : Type} (m : Async A) (f : A -> Async B) : Async B :=
  match m with
  | Resolve a => f a
  | Await r k => Await r (fun x => bind (k x) f)
  end.

Notation "x <- m ;; f" := (bind m (fun x => f))
  (at level 61, m at next level, right associativity).

(** A run against a portal; [None] is a call that throws, which rejects
    the whole computation. *)
Fixpoint run {A : Type} (portal : Request -> option Result) (m : Async A)
  : option A :=
  match m with
  | Resolve a => Some a
  | Await r k =>
      match portal r with
      | Some x => run portal (k x)
      | None => None
      end
  end.

Definition ckanCall (site action : jsstring) (payload : Payload)
  (apiKey : jsstring) : Async Result :=
  Await {| site := site; action := action; payload := payload;
           apiKey := apiKey |} Resolve.

Definition getFields (site resId key : jsstring) : Async (list jsstring) :=
  r <- ckanCall site (lit "datastore_search") (DatastoreSearch resId 0) key ;;
  Resolve (map id (fields r)).

Definition getSchema (site resId key : jsstring) : Async (list Field) :=
  r <- ckanCall site (lit "datastore_search") (DatastoreSearch resId 0) key ;;
  Resolve (fields r).

Definition getDataDictionary := getSchema.

(** [refFields[0]?.id === "_id" ? refFields.slice(1) : refFields] *)
Definition fieldsToSend (refFields : list Field) : list Field :=
  if match nth_error refFields 0 with
     | Some f => str_eqb (id f) (lit "_id")
     | None => false
     end
  then skipn 1 refFields
  else refFields.

Definition setDataDictionary (site resId : jsstring) (refFields : list Field)
  (key : jsstring) : Async Result :=
  let fields := fieldsToSend refFields in
  ckanCall site (lit "datastore_create") (DatastoreCreate resId fields true) key.

Definition schemaDict (schema : list Field) : object jsstring :=
  Object_fromEntries (map (fun f => (id f, type f)) schema).

(** [x !== y] on two values that are a string or [undefined]. *)
Definition strict_neq (x y : option jsstring) : bool :=
  match x, y with
  | Some s, Some t => negb (str_eqb s t)
  | None, None => false
  | _, _ => true
  end.

Record Comparison := {
  sameNames : bool;
  typeMismatches : list jsstring
}.

(** [compareSchemas] once its two schemas have arrived. *)
Definition compareFields (src dst : list Field) : Comparison :=
  let a := schemaDict src in
  let b := schemaDict dst in
  let sameNames :=
    str_eqb (join (sort (Object_keys a))) (join (sort (Object_keys b))) in
  let typeMismatches :=
    filter (fun k => strict_neq (get a k) (get b k)) (Object_keys a) in
  {| sameNames := sameNames; typeMismatches := typeMismatches |}.

(** The two requests of [Promise.all] are issued in the order of the array;
    the comparison is made when both have answered. *)
Definition compareSchemas (site srcId dstId key : jsstring)
  : Async Comparison :=
  src <- getSchema site srcId key ;;
  dst <- getSchema site dstId key ;;
  Resolve (compareFields src dst).

Definition cloneDataDictionary (site srcId dstId key : jsstring)
  : Async Result :=
  ref <- getDataDictionary site srcId key ;;
  setDataDictionary site dstId ref key.

End Ckan.

(* ===================================================================== *)
(** ** main.js: the CSV export and the message of the comparison *)
(* ===================================================================== *)

Module Page.

Import JS.

(** The code units of the quotation mark and of the line feed. *)
Definition quote : N := 34.
Definition newline : N := 10.

(** [arr.join(sep)] *)
Fixpoint joinWith (sep : jsstring) (arr : list jsstring) : jsstring :=
  match arr with
  | [] => []
  | [x] => x
  | x :: rest => x ++ sep ++ joinWith sep rest
  end.

(** The [replace] of the escaped cells: every quotation mark of [s] is
    written twice. *)
Fixpoint doubleQuotes (s : jsstring) : jsstring :=
  match s with
  | [] => []
  | c :: r =>
      if N.eqb c quote then quote :: quote :: doubleQuotes r
      else c :: doubleQuotes r
  end.

(** [x || ""] on a value that is a string or [undefined]. *)
Definition orEmpty (x : option jsstring) : jsstring :=
  match x with
  | Some (c :: r) => c :: r
  | _ => []
  end.

(** [f.info || {}] *)
Definition infoOf (f : Ckan.Field) : Ckan.FieldInfo :=
  match Ckan.info f with
  | Some i => i
  | None => {| Ckan.label := None; Ckan.notes := None; Ckan.example := None |}
  end.

(** The template literal that wraps a cell in quotation marks. *)
Definition quoted (v : jsstring) : jsstring := quote :: v ++ [quote].

Definition cols : list jsstring :=
  [lit "id"; lit "type"; lit "label"; lit "description"; lit "example"].

Definition header : jsstring := join cols ++ [newline].

(** The line of one field: the callback of [.map(f => ...)]. *)
Definition csvRow (f : Ckan.Field) : jsstring :=
  let info := infoOf f in
  join (map quoted
          [ Ckan.id f;
            Ckan.type f;
            doubleQuotes (orEmpty (Ckan.label info));
            doubleQuotes (orEmpty (Ckan.notes info));
            match Ckan.example info with
            | Some (c :: r) => doubleQuotes (c :: r)
            | _ => []
            end ]).

Definition fieldsToCSV (fields : list Ckan.Field) : jsstring :=
  let rows :=
    joinWith [newline]
      (map csvRow
         (filter (fun f => negb (str_eqb (Ckan.id f) (lit "_id"))) fields)) in
  header ++ rows.

(** The text that the listener of [btnCompare] shows for a comparison. *)
Definition compareMessage (c : Ckan.Comparison) : jsstring :=
  if Ckan.sameNames c && Nat.eqb (length (Ckan.typeMismatches c)) 0
  then 10004%N :: lit " Schemas match perfectly"
  else (9888%N :: lit " Differences:") ++ [newline]
       ++ match joinWith [newline] (Ckan.typeMismatches c) with
          | [] => lit "Field lists differ"
          | j => j
          end.

End Page.

(* ===================================================================== *)
(** ** ckan.js: [ckanCall] on the network *)
(* ===================================================================== *)

Module Net.

Import JS.

(** The JSON body of an answer of the portal: [success], [result] and
    [error.message]. *)
Record Answer := {
  success : bool;
  result : Ckan.Result;
  error_message : option jsstring
}.

(** The requests [ckanCall] can issue: [fetch] with the method POST, an
    [Authorization] header and a body; [fetch] of a URL; [jsonp] of a
    URL. *)
Inductive Fetch :=
| Post (url authorization body : jsstring)
| Get (url : jsstring)
| Jsonp (url : jsstring).

(** How a call ends: [return data.result] or a thrown [Error]. *)
Inductive Outcome :=
| Returns (r : Ckan.Result)
| Throws (message : jsstring).

(** [m || fallback] on a message that is a string or [undefined]. *)
Definition messageOr (m : option jsstring) (fallback : jsstring) : jsstring :=
  match m with
  | Some (c :: r) => c :: r
  | _ => fallback
  end.

Section Host.

(** [new URLSearchParams(payload).toString()] and [JSON.stringify(payload)],
    which the host provides. *)
Variable URLSearchParams_toString : Ckan.Payload -> jsstring.
Variable JSON_stringify : Ckan.Payload -> jsstring.

(** The network: the parsed body of the answer to a request, [None] when
    the promise of the request is rejected (no connection, a refusal of
    CORS, a body that is no JSON, a script that does not load). *)
Variable net : Fetch -> option Answer.

Definition endpointOf (site action : jsstring) : jsstring :=
  site ++ lit "/api/3/action/" ++ action.

Definition urlWithQsOf (site action : jsstring) (payload : Ckan.Payload)
  : jsstring :=
  let endpoint := endpointOf site action in
  let qs := URLSearchParams_toString payload in
  match qs with
  | [] => endpoint
  | _ => endpoint ++ lit "?" ++ qs
  end.

(** The [catch] block: the same request over JSONP. *)
Definition fallback (urlWithQs : jsstring) : list Fetch * Outcome :=
  ([Jsonp urlWithQs],
   match net (Jsonp urlWithQs) with
   | None => Throws (lit "JSONP load error")
   | Some data =>
       if success data then Returns (result data)
       else Throws (messageOr (error_message data) (lit "CKAN JSONP error"))
   end).

(** [ckanCall]: the requests it issues, in order, and how it ends. *)
Definition ckanCall (site action : jsstring) (payload : Ckan.Payload)
  (apiKey : jsstring) : list Fetch * Outcome :=
  let endpoint := endpointOf site action in
  let urlWithQs := urlWithQsOf site action payload in
  let first :=
    match apiKey with
    | [] => Get urlWithQs
    | _ => Post endpoint apiKey (JSON_stringify payload)
    end in
  match net first with
  | Some data =>
      if success data then ([first], Returns (result data))
      else let '(more, out) := fallback urlWithQs in (first :: more, out)
  | None => let '(more, out) := fallback urlWithQs in (first :: more, out)
  end.

(** The portal that the helpers of [ckan.js] see through [ckanCall]. *)
Definition portal (r : Ckan.Request) : option Ckan.Result :=
  match snd (ckanCall (Ckan.site r) (Ckan.action r) (Ckan.payload r)
               (Ckan.apiKey r)) with
  | Returns x => Some x
  | Throws _ => None
  end.

End Host.

End Net.

Import JS Regex Main.

(* ===================================================================== *)
(** ** Notions the properties are stated with *)
(* ===================================================================== *)

(** ["NA"], ["NULL"], the empty string, or white space only. *)
Definition isBlankOrNA (s : jsstring) : bool :=
  str_eqb s (lit "NA") || str_eqb s (lit "NULL") || str_eqb s (lit "")
  || forallb is_white_space s.

(** [value !== "" && value != null] *)
Definition hasContent (v : value) : bool :=
  negb (strict_eq_str v (lit "")) && negb (loose_eq_null v).

(** The values of a column, in row order. *)
Definition columnValues (header : jsstring) (data : list (object value))
  : list value :=
  map (fun row => row_get row header) data.

(** The first value with content, [null] when there is none. *)
Definition firstWithContent (vs : list value) : value :=
  match find hasContent vs with
  | Some v => v
  | None => VNull
  end.

(** The entry that [generateDataDictionary] pushes for a header. *)
Definition entryFor (rt : HostDate.Runtime) (data : list (object value))
  (header : jsstring) : Entry :=
  let '(typeCounts, example) := scanColumn rt header data in
  {| column := header;
     type := chooseType typeCounts;
     example := example;
     description := lit "" |}.

(** Sum of the six counters. *)
Definition total (tc : TypeCounts) : nat :=
  c_text tc + c_int tc + c_float tc + c_bool tc + c_datetime tc + c_date tc.

(** Place of a type name in the order [Object.entries] visits them. *)
Definition rank (t : TypeTag) : nat :=
  match t with
  | Ttext => 0
  | Tint => 1
  | Tfloat => 2
  | Tbool => 3
  | Tdatetime => 4
  | Tdate => 5
  end.

(** How many rows of [data] have a value of type [t] in the column. *)
Definition occurrences (rt : HostDate.Runtime) (header : jsstring)
  (t : TypeTag) (data : list (object value)) : nat :=
  length (filter (fun row =>
                    Nat.eqb (rank (detectType rt (row_get row header))) (rank t))
                 data).

(** The type a schema declares for a name: that of the last field of the
    name, [None] when no field has it. *)
Definition declaredType (schema : list Ckan.Field) (k : jsstring)
  : option jsstring :=
  option_map Ckan.type
    (find (fun f => str_eqb (Ckan.id f) k) (rev schema)).

(** The names of a schema. *)
Definition names (schema : list Ckan.Field) : list jsstring :=
  map Ckan.id schema.

Definition sameNameSet (src dst : list Ckan.Field) : Prop :=
  forall k, In k (names src) <-> In k (names dst).

(** The call that [getSchema] makes. *)
Definition searchRequest (site resId key : jsstring) : Ckan.Request :=
  {| Ckan.site := site;
     Ckan.action := lit "datastore_search";
     Ckan.payload := Ckan.DatastoreSearch resId 0;
     Ckan.apiKey := key |}.

(** A portal with two resources, of the given schemas. *)
Definition twoResources (srcId dstId : jsstring) (src dst : list Ckan.Field)
  (r : Ckan.Request) : option Ckan.Result :=
  match Ckan.payload r with
  | Ckan.DatastoreSearch resId _ =>
      if str_eqb resId srcId then Some {| Ckan.fields := src |}
      else if str_eqb resId dstId then Some {| Ckan.fields := dst |}
      else None
  | Ckan.DatastoreCreate _ _ _ => None
  end.

(** The call that [setDataDictionary] makes for the fields [fields]. *)
Definition createRequest (site resId : jsstring) (fields : list Ckan.Field)
  (key : jsstring) : Ckan.Request :=
  {| Ckan.site := site;
     Ckan.action := lit "datastore_create";
     Ckan.payload := Ckan.DatastoreCreate resId fields true;
     Ckan.apiKey := key |}.

(** The fields whose id is not ["_id"]. *)
Definition withoutId (fields : list Ckan.Field) : list Ckan.Field :=
  filter (fun f => negb (str_eqb (Ckan.id f) (lit "_id"))) fields.

(** The two texts of the comparison. *)
Definition perfectText : jsstring := 10004%N :: lit " Schemas match perfectly".

Definition listsDifferText : jsstring :=
  (9888%N :: lit " Differences:") ++ [Page.newline] ++ lit "Field lists differ".

(** A query string, a body and two networks to run [ckanCall] with: one
    that answers every request with [success] and an empty list of fields,
    one that refuses the POST requests and answers the others. *)
Definition sampleQuery (p : Ckan.Payload) : jsstring :=
  match p with
  | Ckan.DatastoreSearch resId _ => lit "resource_id=" ++ resId ++ lit "&limit=0"
  | Ckan.DatastoreCreate resId _ _ => lit "resource_id=" ++ resId
  end.

Definition sampleBody (p : Ckan.Payload) : jsstring := lit "{}".

Definition openNet (q : Net.Fetch) : option Net.Answer :=
  Some {| Net.success := true; Net.result := {| Ckan.fields := [] |};
          Net.error_message := None |}.

Definition refusingNet (q : Net.Fetch) : option Net.Answer :=
  match q with
  | Net.Post _ _ _ =>
      Some {| Net.success := false; Net.result := {| Ckan.fields := [] |};
              Net.error_message := Some (lit "Access denied") |}
  | _ => openNet q
  end.

(** The cells of the line of a field: the id, the type, and the label, the
    notes and the example of [info], each empty when it is absent. *)
Definition cellsOf (f : Ckan.Field) : list jsstring :=
  [ Ckan.id f; Ckan.type f;
    Page.orEmpty (Ckan.label (Page.infoOf f));
    Page.orEmpty (Ckan.notes (Page.infoOf f));
    Page.orEmpty (Ckan.example (Page.infoOf f)) ].

(** The literals of the boolean rule. *)
Definition booleanLiterals : list jsstring :=
  [lit "true"; lit "false"; lit "True"; lit "False"; lit "0"; lit "1"].

(** Midnight in the local time of the host. *)
Definition localMidnight (rt : HostDate.Runtime) (t : Z) : bool :=
  ((HostDate.getHours rt t =? 0) && (HostDate.getMinutes rt t =? 0)
   && (HostDate.getSeconds rt t =? 0))%Z.

(** The order of a boolean comparison. *)
Definition holds {A : Type} (leb : A -> A -> bool) (a b : A) : Prop :=
  leb a b = true.

(** A name that is not empty and holds no comma. *)
Definition plainName (k : jsstring) : Prop :=
  k <> [] /\ ~ In (cu ",") k.

(* ===================================================================== *)
(** ** Facts on strings *)
(* ===================================================================== *)

Section StringFacts.

Lemma str_eqb_eq (a b : jsstring) : str_eqb a b = true <-> a = b.
Proof.
  revert b; induction a as [|x a IH]; intros [|y b]; simpl;
    try (split; [discriminate | intros H; discriminate H]);
    try (split; reflexivity).
  rewrite andb_true_iff, N.eqb_eq, IH.
  split; [intros [-> ->]; reflexivity | intros H; inversion H; auto].
Qed.

Lemma str_eqb_refl (a : jsstring) : str_eqb a a = true.
Proof. apply str_eqb_eq; reflexivity. Qed.

Lemma str_eqb_neq (a b : jsstring) : str_eqb a b = false <-> a <> b.
Proof.
  rewrite <- str_eqb_eq. destruct (str_eqb a b); split; congruence.
Qed.

Lemma str_eqb_sym (a b : jsstring) : str_eqb a b = str_eqb b a.
Proof.
  destruct (str_eqb a b) eqn:E.
  - apply str_eqb_eq in E; subst; symmetry; apply str_eqb_refl.
  - destruct (str_eqb b a) eqn:E'; [|reflexivity].
    apply str_eqb_eq in E'; subst. rewrite str_eqb_refl in E; discriminate.
Qed.

Lemma trimStart_nil (s : jsstring) :
  trimStart s = [] <-> forallb is_white_space s = true.
Proof.
  induction s as [|c r IH]; simpl.
  - split; reflexivity.
  - destruct (is_white_space c); simpl.
    + exact IH.
    + split; discriminate.
Qed.

Lemma trimStart_all (s : jsstring) :
  forallb is_white_space (trimStart s) = forallb is_white_space s.
Proof.
  induction s as [|c r IH]; simpl; [reflexivity|].
  destruct (is_white_space c) eqn:E; simpl; [exact IH | now rewrite E].
Qed.

Lemma forallb_rev {A : Type} (p : A -> bool) (l : list A) :
  forallb p (rev l) = forallb p l.
Proof.
  induction l as [|x l IH]; simpl; [reflexivity|].
  rewrite forallb_app, IH; simpl. rewrite andb_true_r. apply andb_comm.
Qed.

(** [s.trim() === ""] holds exactly of the strings made of white space. *)
Lemma trim_nil (s : jsstring) :
  trim s = [] <-> forallb is_white_space s = true.
Proof.
  unfold trim, trimEnd.
  rewrite <- (trimStart_all s), <- (forallb_rev _ (trimStart s)).
  rewrite <- trimStart_nil.
  split; intros H.
  - apply (f_equal (@rev N)) in H. rewrite rev_involutive in H. exact H.
  - rewrite H; reflexivity.
Qed.

End StringFacts.

(* ===================================================================== *)
(** ** Facts on the patterns *)
(* ===================================================================== *)

Section RegexFacts.

Lemma nullable_lang (r : regex) : nullable r = true <-> lang r [].
Proof.
  induction r as [| |c| |a IHa b IHb|a IHa b IHb|a IHa]; simpl.
  - split; [discriminate | tauto].
  - split; reflexivity.
  - split; discriminate.
  - split; [discriminate | intros (c & H & _); discriminate].
  - rewrite andb_true_iff, IHa, IHb. split.
    + intros [Ha Hb]. exists [], []. auto.
    + intros (s1 & s2 & E & Ha & Hb).
      symmetry in E. apply app_eq_nil in E as [-> ->]. auto.
  - rewrite orb_true_iff, IHa, IHb. reflexivity.
  - split; [|reflexivity]. intros _. exists []. auto.
Qed.

Lemma star_cons (a : regex) (c : N) (s : jsstring) :
  lang (Star a) (c :: s) ->
  exists s1 s2, s = s1 ++ s2 /\ lang a (c :: s1) /\ lang (Star a) s2.
Proof.
  simpl. intros (ss & E & F). revert E.
  induction F as [|x ss Hx F IH]; simpl; intros E; [discriminate|].
  destruct x as [|d x]; simpl in E.
  - apply IH, E.
  - inversion E; subst. exists x, (concat ss). repeat split; auto.
    exists ss. auto.
Qed.

Lemma deriv_lang (c : N) (r : regex) (s : jsstring) :
  lang (deriv c r) s <-> lang r (c :: s).
Proof.
  revert s. induction r as [| |d| |a IHa b IHb|a IHa b IHb|a IHa];
    intros s; simpl.
  - tauto.
  - split; [tauto | discriminate].
  - destruct (N.eqb_spec c d) as [->|Hn]; simpl.
    + split; [intros ->; reflexivity | intros H; inversion H; reflexivity].
    + split; [tauto | intros H; inversion H; congruence].
  - destruct (is_digit c) eqn:D; simpl.
    + split.
      * intros ->. exists c. auto.
      * intros (x & H & _). inversion H; reflexivity.
    + split; [tauto|]. intros (x & H & Hx). inversion H; subst. congruence.
  - assert (Hseq : (exists s1 s2, s = s1 ++ s2 /\ lang (deriv c a) s1 /\ lang b s2)
                   -> exists s1 s2, c :: s = s1 ++ s2 /\ lang a s1 /\ lang b s2).
    { intros (s1 & s2 & -> & H1 & H2). exists (c :: s1), s2.
      rewrite IHa in H1. auto. }
    destruct (nullable a) eqn:Na; simpl.
    + split.
      * intros [H|H]; [apply Hseq, H|].
        exists [], (c :: s). rewrite <- IHb, <- nullable_lang. auto.
      * intros (s1 & s2 & E & H1 & H2). destruct s1 as [|x s1]; simpl in E.
        -- right. subst s2. apply IHb, H2.
        -- left. inversion E; subst. exists s1, s2. rewrite IHa. auto.
    + split; [exact Hseq|].
      intros (s1 & s2 & E & H1 & H2). destruct s1 as [|x s1]; simpl in E.
      * apply nullable_lang in H1. congruence.
      * inversion E; subst. exists s1, s2. rewrite IHa. auto.
  - rewrite IHa, IHb. reflexivity.
  - split.
    + intros (s1 & s2 & -> & H1 & ss & -> & F).
      exists ((c :: s1) :: ss). split; [reflexivity|].
      constructor; [apply IHa, H1 | exact F].
    + intros H. apply star_cons in H as (s1 & s2 & -> & H1 & H2).
      exists s1, s2. rewrite IHa. auto.
Qed.

(** The matcher decides the language of its pattern. *)
Lemma test_lang (r : regex) (s : jsstring) : test r s = true <-> lang r s.
Proof.
  unfold test. revert r. induction s as [|c s IH]; intros r; simpl.
  - apply nullable_lang.
  - rewrite IH. apply deriv_lang.
Qed.

Lemma star_digit_lang (s : jsstring) :
  lang (Star Digit) s <-> forallb is_digit s = true.
Proof.
  split.
  - intros (ss & -> & F). induction F as [|x ss (c & -> & D) F IH]; simpl.
    + reflexivity.
    + rewrite D. exact IH.
  - intros H. exists (map (fun c => [c]) s). split.
    + induction s as [|c s IH]; simpl; [reflexivity|].
      simpl in H. apply andb_true_iff in H as [_ H]. now rewrite <- IH.
    + induction s as [|c s IH]; simpl; constructor.
      * simpl in H. apply andb_true_iff in H as [D _]. exists c. auto.
      * simpl in H. apply andb_true_iff in H as [_ H]. auto.
Qed.

Lemma plus_digit_lang (s : jsstring) :
  lang (Plus Digit) s <-> s <> [] /\ forallb is_digit s = true.
Proof.
  unfold Plus. change (lang (Seq Digit (Star Digit)) s)
    with (exists s1 s2, s = s1 ++ s2 /\ lang Digit s1 /\ lang (Star Digit) s2).
  split.
  - intros (s1 & s2 & -> & (c & -> & D) & H). apply star_digit_lang in H.
    simpl. rewrite D, H. split; [discriminate | reflexivity].
  - intros [Hne H]. destruct s as [|c s]; [congruence|].
    simpl in H. apply andb_true_iff in H as [D H].
    exists [c], s. repeat split.
    + exists c. auto.
    + apply star_digit_lang, H.
Qed.

(** [/^-?\d+$/] matches an optional minus sign followed by one or more
    decimal digits, and nothing else. *)
Lemma INT_RE_lang (s : jsstring) :
  test INT_RE s = true <->
  exists ds, ds <> [] /\ forallb is_digit ds = true
             /\ (s = ds \/ s = cu "-" :: ds).
Proof.
  rewrite test_lang. unfold INT_RE, Opt.
  change (lang (Seq (Alt (Chr (cu "-")) Eps) (Plus Digit)) s)
    with (exists s1 s2, s = s1 ++ s2 /\ (s1 = [cu "-"] \/ s1 = [])
                        /\ lang (Plus Digit) s2).
  split.
  - intros (s1 & s2 & -> & H1 & H2). apply plus_digit_lang in H2 as [Hne D].
    exists s2. destruct H1 as [-> | ->]; simpl; auto.
  - intros (ds & Hne & D & [-> | ->]).
    + exists [], ds. rewrite plus_digit_lang. auto.
    + exists [cu "-"], ds. rewrite plus_digit_lang. auto.
Qed.

(** [/^-?\d*\.\d+$/] matches an optional minus sign, any number of digits,
    a point and one or more digits. *)
Lemma FLOAT_RE_lang (s : jsstring) :
  test FLOAT_RE s = true <->
  exists sign ip fp,
    s = sign ++ ip ++ cu "." :: fp
    /\ (sign = [] \/ sign = [cu "-"])
    /\ forallb is_digit ip = true
    /\ fp <> [] /\ forallb is_digit fp = true.
Proof.
  rewrite test_lang. unfold FLOAT_RE, Opt.
  change (lang (Seq (Alt (Chr (cu "-")) Eps)
                  (Seq (Star Digit) (Seq (Chr (cu ".")) (Plus Digit)))) s)
    with (exists s1 s2, s = s1 ++ s2 /\ (s1 = [cu "-"] \/ s1 = [])
            /\ exists s3 s4, s2 = s3 ++ s4 /\ lang (Star Digit) s3
                 /\ exists s5 s6, s4 = s5 ++ s6 /\ s5 = [cu "."]
                                  /\ lang (Plus Digit) s6).
  split.
  - intros (s1 & s2 & -> & H1 & s3 & s4 & -> & H3 & s5 & s6 & -> & -> & H6).
    apply star_digit_lang in H3. apply plus_digit_lang in H6 as [Hne D].
    exists s1, s3, s6. simpl. repeat split; tauto.
  - intros (sign & ip & fp & -> & Hs & Hi & Hne & Hf).
    exists sign, (ip ++ cu "." :: fp). repeat split; [tauto|].
    exists ip, (cu "." :: fp). repeat split; [apply star_digit_lang, Hi|].
    exists [cu "."], fp. repeat split. apply plus_digit_lang. auto.
Qed.

End RegexFacts.

(* ===================================================================== *)
(** ** The classifier *)
(* ===================================================================== *)

Section ClassifierFacts.

Variable rt : HostDate.Runtime.

Lemma str_eqb_head_neq (x y : N) (a b : jsstring) :
  x <> y -> str_eqb (x :: a) (y :: b) = false.
Proof. intros H. simpl. apply N.eqb_neq in H. now rewrite H. Qed.

Lemma not_all_white_space (c : N) (r : jsstring) :
  is_white_space c = false -> str_eqb (trim (c :: r)) (lit "") = false.
Proof.
  intros H. apply str_eqb_neq. change (lit "") with (@nil N).
  rewrite trim_nil. simpl. now rewrite H.
Qed.

Ltac no_space :=
  unfold is_white_space;
  repeat apply orb_false_intro;
  first [ apply N.eqb_neq; lia
        | apply andb_false_iff; first [ left; apply N.leb_gt; lia
                                      | right; apply N.leb_gt; lia ] ].

(** A digit and the minus sign are not white space. *)
Lemma digit_or_minus_not_space (c : N) :
  is_digit c = true \/ c = cu "-" -> is_white_space c = false.
Proof.
  unfold is_digit. rewrite andb_true_iff, !N.leb_le. change (cu "-") with 45%N.
  intros H. no_space.
Qed.

Lemma INT_RE_head (s : jsstring) :
  test INT_RE s = true ->
  exists c r, s = c :: r /\ (is_digit c = true \/ c = cu "-").
Proof.
  intros H. apply INT_RE_lang in H as (ds & Hne & D & E).
  destruct ds as [|d ds]; [congruence|]. simpl in D.
  apply andb_true_iff in D as [D _].
  destruct E as [-> | ->]; eauto.
Qed.

End ClassifierFacts.

(** C1. On a value that matches [/^-?\d+$/] the classifier answers [bool]
    when the value is literally ["0"] or ["1"], and [int] otherwise: the
    list of boolean literals is looked up before the integer pattern is
    tried. *)
Theorem detectType_integer_pattern (rt : HostDate.Runtime) (s : jsstring) :
  test INT_RE s = true ->
  detectType rt (VString s)
  = if str_eqb s (lit "0") || str_eqb s (lit "1") then Tbool else Tint.
Proof.
  intros Hm. destruct (INT_RE_head _ Hm) as (c & r & -> & Hc).
  pose proof (digit_or_minus_not_space c Hc) as Hws.
  assert (Hlo : (45 <= c <= 57)%N).
  { destruct Hc as [D | ->]; [|cbv; split; discriminate].
    unfold is_digit in D. apply andb_true_iff in D as [D1 D2].
    apply N.leb_le in D1, D2. lia. }
  unfold detectType.
  cbn [strict_eq_str loose_eq_null ToString].
  rewrite (not_all_white_space c r Hws).
  change (lit "") with (@nil N).
  change (lit "NA") with (78 :: lit "A")%N.
  change (lit "NULL") with (78 :: lit "ULL")%N.
  rewrite !str_eqb_head_neq by lia.
  change (str_eqb (c :: r) []) with false.
  cbn [orb].
  unfold includes.
  change (lit "true") with (116 :: lit "rue")%N.
  change (lit "false") with (102 :: lit "alse")%N.
  change (lit "True") with (84 :: lit "rue")%N.
  change (lit "False") with (70 :: lit "alse")%N.
  cbn [existsb]. rewrite !str_eqb_head_neq by lia.
  cbn [orb]. rewrite orb_false_r.
  rewrite (str_eqb_sym (lit "0")), (str_eqb_sym (lit "1")).
  destruct (str_eqb (c :: r) (lit "0") || str_eqb (c :: r) (lit "1"));
    [reflexivity|].
  now rewrite Hm.
Qed.

Lemma detectType_integer_pattern_witness :
  test INT_RE (lit "-42") = true
  /\ detectType (HostDate.iso_host 0) (VString (lit "-42")) = Tint.
Proof.
  split; [reflexivity|].
  apply (detectType_integer_pattern (HostDate.iso_host 0) (lit "-42")).
  reflexivity.
Defined.

(* ===================================================================== *)
(** ** The scan of a column *)
(* ===================================================================== *)

Section ScanFacts.

Variable rt : HostDate.Runtime.
Variable header : jsstring.

Lemma or_zero_id (n : nat) : or_zero n = n.
Proof. unfold or_zero. destruct n; reflexivity. Qed.

Lemma count_setCount (tc : TypeCounts) (t t' : TypeTag) (n : nat) :
  count (setCount tc t n) t' = if Nat.eqb (rank t) (rank t') then n else count tc t'.
Proof. destruct t, t'; reflexivity. Qed.

Lemma total_setCount (tc : TypeCounts) (t : TypeTag) :
  total (setCount tc t (or_zero (count tc t) + 1)) = total tc + 1.
Proof. rewrite or_zero_id. destruct tc, t; unfold total; simpl; lia. Qed.

Lemma scanRow_counts (tc : TypeCounts) (ex : value) (row : object value) :
  fst (scanRow rt header (tc, ex) row)
  = let t := detectType rt (row_get row header) in
    setCount tc t (or_zero (count tc t) + 1).
Proof. reflexivity. Qed.

Lemma scanRow_example (tc : TypeCounts) (ex : value) (row : object value) :
  snd (scanRow rt header (tc, ex) row)
  = if hasContent (row_get row header) && strict_eq_null ex
    then row_get row header else ex.
Proof. reflexivity. Qed.

Lemma hasContent_not_null (v : value) :
  hasContent v = true -> strict_eq_null v = false.
Proof. destruct v; simpl; auto. Qed.

(** The example after a scan started with [ex]: a non-null [ex] is kept,
    a null one gives way to the first value with content. *)
Lemma scan_example (data : list (object value)) (tc : TypeCounts) (ex : value) :
  snd (fold_left (scanRow rt header) data (tc, ex))
  = if strict_eq_null ex then firstWithContent (columnValues header data)
    else ex.
Proof.
  revert tc ex. induction data as [|row data IH]; intros tc ex.
  - simpl. destruct ex; reflexivity.
  - cbn [fold_left].
    rewrite (surjective_pairing (scanRow rt header (tc, ex) row)).
    rewrite IH, scanRow_example. unfold firstWithContent, columnValues.
    cbn [map find].
    destruct (hasContent (row_get row header)) eqn:Hc;
      destruct (strict_eq_null ex) eqn:Hn; cbn [andb];
      rewrite ?Hn, ?(hasContent_not_null _ Hc); reflexivity.
Qed.

Lemma scan_total (data : list (object value)) (tc : TypeCounts) (ex : value) :
  total (fst (fold_left (scanRow rt header) data (tc, ex)))
  = total tc + length data.
Proof.
  revert tc ex. induction data as [|row data IH]; intros tc ex.
  - simpl. lia.
  - cbn [fold_left].
    rewrite (surjective_pairing (scanRow rt header (tc, ex) row)).
    rewrite IH, scanRow_counts. cbv zeta. rewrite total_setCount.
    simpl. lia.
Qed.

Lemma scan_count (data : list (object value)) (tc : TypeCounts) (ex : value)
  (t : TypeTag) :
  count (fst (fold_left (scanRow rt header) data (tc, ex))) t
  = count tc t + occurrences rt header t data.
Proof.
  revert tc ex. induction data as [|row data IH]; intros tc ex.
  - unfold occurrences. simpl. lia.
  - cbn [fold_left].
    rewrite (surjective_pairing (scanRow rt header (tc, ex) row)).
    rewrite IH, scanRow_counts. cbv zeta. rewrite count_setCount, or_zero_id.
    unfold occurrences. cbn [filter].
    destruct (Nat.eqb (rank (detectType rt (row_get row header))) (rank t)) eqn:E.
    + apply Nat.eqb_eq in E.
      assert (detectType rt (row_get row header) = t) as ->
        by (destruct (detectType rt (row_get row header)), t;
            simpl in E; congruence).
      simpl. lia.
    + lia.
Qed.

Lemma occurrences_perm (t : TypeTag) (data data' : list (object value)) :
  Permutation data data' ->
  occurrences rt header t data = occurrences rt header t data'.
Proof.
  intros P. unfold occurrences.
  induction P as [|x l l' P IH|x y l|l l' l'' P1 IH1 P2 IH2]; simpl.
  - reflexivity.
  - destruct (Nat.eqb _ _); simpl; congruence.
  - repeat destruct (Nat.eqb _ _); reflexivity.
  - congruence.
Qed.

Lemma counts_ext (a b : TypeCounts) :
  (forall t, count a t = count b t) -> a = b.
Proof.
  intros H. destruct a, b.
  pose proof (H Ttext); pose proof (H Tint); pose proof (H Tfloat);
    pose proof (H Tbool); pose proof (H Tdatetime); pose proof (H Tdate).
  simpl in *. congruence.
Qed.

(** The tally of a column does not depend on the order of the rows. *)
Lemma scan_counts_perm (data data' : list (object value)) :
  Permutation data data' ->
  fst (scanColumn rt header data) = fst (scanColumn rt header data').
Proof.
  intros P. apply counts_ext. intros t. unfold scanColumn.
  rewrite !scan_count. now rewrite (occurrences_perm t data data' P).
Qed.

End ScanFacts.

(* ===================================================================== *)
(** ** The choice of a type *)
(* ===================================================================== *)

Section ChooseFacts.

Ltac split_comparisons :=
  repeat match goal with
         | |- context [Nat.ltb ?x ?y] =>
             destruct (Nat.ltb_spec x y); cbn -[Nat.ltb]
         end.

(** No counter is above that of the chosen type. *)
Lemma chooseType_max (tc : TypeCounts) (t : TypeTag) :
  count tc t <= count tc (chooseType tc).
Proof.
  destruct tc as [a b c d e f]. unfold chooseType. cbn -[Nat.ltb].
  split_comparisons; destruct t; cbn; lia.
Qed.

(** The types visited before the chosen one have a smaller counter. *)
Lemma chooseType_first (tc : TypeCounts) (t : TypeTag) :
  rank t < rank (chooseType tc) -> count tc t < count tc (chooseType tc).
Proof.
  destruct tc as [a b c d e f]. unfold chooseType. cbn -[Nat.ltb].
  split_comparisons; destruct t; cbn; lia.
Qed.

(** A column of [n + 1] values of one type gets that type. *)
Lemma chooseType_single (t : TypeTag) (n : nat) :
  chooseType (setCount zeroCounts t (S n)) = t.
Proof. destruct t; reflexivity. Qed.

End ChooseFacts.

(* ===================================================================== *)
(** ** Sample runs *)
(* ===================================================================== *)

Example detectType_samples :
  let h := HostDate.iso_host 0 in
  map (detectType h)
      [ VString (lit "1"); VString (lit "2"); VString (lit "-17");
        VString (lit ".5"); VString (lit "3.14"); VString (lit "5.");
        VString (lit "true"); VString (lit "TRUE"); VString (lit "hello");
        VString (lit "  "); VString (lit "NA"); VUndefined; VNull;
        VString (lit "2023-06-15") ]
  = [ Tbool; Tint; Tint; Tfloat; Tfloat; Ttext; Tbool; Ttext; Ttext; Ttext;
      Ttext; Ttext; Ttext; Tdate ].
Proof. reflexivity. Qed.

Example generateDataDictionary_sample :
  generateDataDictionary (HostDate.iso_host 0)
    [ [(lit "n", VString (lit "1")); (lit "note", VString (lit ""))];
      [(lit "n", VString (lit "2")); (lit "note", VString (lit "NA"))];
      [(lit "n", VString (lit "3"))] ]
  = DArray
      [ {| column := lit "n"; type := Tint; example := VString (lit "1");
           description := lit "" |};
        {| column := lit "note"; type := Ttext; example := VString (lit "NA");
           description := lit "" |} ].
Proof. reflexivity. Qed.

Example Object_keys_sample :
  Object_keys [ (lit "b", 0); (lit "10", 1); (lit "a", 2); (lit "9", 3);
                (lit "01", 4) ]
  = [lit "9"; lit "10"; lit "b"; lit "a"; lit "01"].
Proof. reflexivity. Qed.

Example compareFields_sample :
  Ckan.compareFields
    [ {| Ckan.id := lit "_id"; Ckan.type := lit "int"; Ckan.info := None |};
      {| Ckan.id := lit "year"; Ckan.type := lit "int"; Ckan.info := None |};
      {| Ckan.id := lit "name"; Ckan.type := lit "text"; Ckan.info := None |} ]
    [ {| Ckan.id := lit "name"; Ckan.type := lit "text"; Ckan.info := None |};
      {| Ckan.id := lit "_id"; Ckan.type := lit "int"; Ckan.info := None |};
      {| Ckan.id := lit "year"; Ckan.type := lit "text"; Ckan.info := None |} ]
  = {| Ckan.sameNames := true; Ckan.typeMismatches := [lit "year"] |}.
Proof. reflexivity. Qed.

(* ===================================================================== *)
(** ** Properties of main.js *)
(* ===================================================================== *)

(** C2. On a table without rows [generateDataDictionary] does not fail,
    but what it returns is the object literal [{}], not the empty array
    that the path of the non-empty tables would give. *)
Theorem generateDataDictionary_no_rows (rt : HostDate.Runtime) :
  generateDataDictionary rt [] = DObject []
  /\ generateDataDictionary rt [] <> DArray [].
Proof. split; [reflexivity | discriminate]. Qed.

(** The claim C3 as it is written fails: in the column of the values [""],
    ["NA"], ["hello"] the example is ["NA"]. *)
Lemma NA_taken_as_example :
  ~ (forall (rt : HostDate.Runtime) (header : jsstring)
            (data : list (object value)) (s : jsstring),
        isBlankOrNA s = true ->
        detectType rt (VString s) = Ttext
        /\ snd (scanColumn rt header data) <> VString s).
Proof.
  intros H.
  destruct (H (HostDate.iso_host 0) (lit "code")
              [ [(lit "code", VString (lit ""))];
                [(lit "code", VString (lit "NA"))];
                [(lit "code", VString (lit "hello"))] ]
              (lit "NA") eq_refl)
    as [_ Hex].
  apply Hex. reflexivity.
Qed.

(** C3, amended. A value that is ["NA"], ["NULL"], empty or white space only
    is classified [text]; the empty string is never the example of a
    column, wherever it stands; the other values of this kind are the
    example of the column when no row before theirs has a value with
    content. *)
Theorem blank_values_text_and_example (rt : HostDate.Runtime) (s : jsstring) :
  isBlankOrNA s = true ->
  detectType rt (VString s) = Ttext
  /\ (forall header data,
         snd (scanColumn rt header data) <> VString (lit ""))
  /\ (s <> lit "" ->
      forall header before row after,
        (forall r, In r before -> hasContent (row_get r header) = false) ->
        row_get row header = VString s ->
        snd (scanColumn rt header (before ++ row :: after)) = VString s).
Proof.
  intros Hs. split; [|split].
  - unfold isBlankOrNA in Hs. unfold detectType.
    cbn [strict_eq_str loose_eq_null ToString].
    assert (Hw : forallb is_white_space s = true -> str_eqb (trim s) (lit "") = true).
    { intros H. apply str_eqb_eq. apply trim_nil, H. }
    destruct (str_eqb s (lit "")) eqn:E0; [reflexivity|].
    destruct (forallb is_white_space s) eqn:Ew; [now rewrite Hw|].
    destruct (str_eqb s (lit "NA")) eqn:E1; [now rewrite !orb_true_r|].
    destruct (str_eqb s (lit "NULL")) eqn:E2; [now rewrite !orb_true_r|].
    discriminate Hs.
  - intros header data. unfold scanColumn. rewrite scan_example.
    cbn [strict_eq_null]. unfold firstWithContent.
    destruct (find hasContent (columnValues header data)) as [v|] eqn:F;
      [|discriminate].
    apply find_some in F as [_ Hc]. intros ->. discriminate Hc.
  - intros Hne header before row after Hb Hr. unfold scanColumn.
    rewrite scan_example. cbn [strict_eq_null].
    unfold firstWithContent, columnValues. rewrite map_app. cbn [map].
    rewrite Hr. induction before as [|r before IH]; cbn [app map find].
    + unfold hasContent. cbn [strict_eq_str loose_eq_null ToString].
      apply str_eqb_neq in Hne. now rewrite Hne.
    + rewrite (Hb r (or_introl eq_refl)). apply IH.
      intros r' Hin. apply Hb. now right.
Qed.

Lemma blank_values_text_and_example_witness :
  isBlankOrNA (lit "NULL") = true
  /\ detectType (HostDate.iso_host 0) (VString (lit "NULL")) = Ttext
  /\ snd (scanColumn (HostDate.iso_host 0) (lit "code")
            ([[(lit "code", VString (lit ""))]]
             ++ [(lit "code", VString (lit "NULL"))]
             :: [[(lit "code", VString (lit "x"))]]))
     = VString (lit "NULL").
Proof.
  split; [reflexivity|].
  destruct (blank_values_text_and_example (HostDate.iso_host 0) (lit "NULL")
              eq_refl) as (Ht & _ & Hex).
  split; [exact Ht|].
  apply Hex.
  - discriminate.
  - intros r [<- | []]. reflexivity.
  - reflexivity.
Defined.

Section BuilderFacts.

Variable rt : HostDate.Runtime.

Lemma generateDataDictionary_entries (row0 : object value)
  (rest : list (object value)) :
  generateDataDictionary rt (row0 :: rest)
  = DArray (map (entryFor rt (row0 :: rest)) (Object_keys row0)).
Proof. reflexivity. Qed.

Lemma entryFor_fields (data : list (object value)) (header : jsstring) :
  column (entryFor rt data header) = header
  /\ type (entryFor rt data header)
     = chooseType (fst (scanColumn rt header data))
  /\ example (entryFor rt data header) = snd (scanColumn rt header data)
  /\ description (entryFor rt data header) = lit "".
Proof.
  unfold entryFor. destruct (scanColumn rt header data). repeat split.
Qed.

Lemma entryFor_columns (data : list (object value)) (keys : list jsstring) :
  map column (map (entryFor rt data) keys) = keys.
Proof.
  induction keys as [|k keys IH]; [reflexivity|]. cbn [map].
  rewrite IH. now rewrite (proj1 (entryFor_fields data k)).
Qed.

Lemma scan_example_first (header : jsstring) (data : list (object value)) :
  snd (scanColumn rt header data)
  = firstWithContent (columnValues header data).
Proof. unfold scanColumn. now rewrite scan_example. Qed.

(** An example that is set stays as it is when further rows are scanned. *)
Lemma scan_example_kept (header : jsstring) (data later : list (object value)) :
  snd (scanColumn rt header data) <> VNull ->
  snd (scanColumn rt header (data ++ later)) = snd (scanColumn rt header data).
Proof.
  intros Hset. unfold scanColumn in *. rewrite fold_left_app.
  destruct (fold_left (scanRow rt header) data (zeroCounts, VNull))
    as [tc ex] eqn:E.
  rewrite scan_example. cbn [snd] in *.
  destruct ex; try reflexivity. congruence.
Qed.

Lemma firstWithContent_none (vs : list value) :
  (forall v, In v vs -> hasContent v = false) -> firstWithContent vs = VNull.
Proof.
  intros H. unfold firstWithContent.
  destruct (find hasContent vs) as [v|] eqn:F; [|reflexivity].
  apply find_some in F as [Hin Hc]. rewrite (H v Hin) in Hc. discriminate Hc.
Qed.

End BuilderFacts.

(** C4. In the dictionary of a table the example of every entry is the
    first value of the column of the entry, in row order, with
    [value !== "" && value != null], and [null] when the column has none;
    and when rows are added to the table, the entries that have an example
    keep it. *)
Theorem example_is_first_with_content (rt : HostDate.Runtime)
  (row0 : object value) (rest later : list (object value)) :
  exists es es',
    generateDataDictionary rt (row0 :: rest) = DArray es
    /\ generateDataDictionary rt (row0 :: rest ++ later) = DArray es'
    /\ map column es = Object_keys row0
    /\ Forall (fun e =>
                 example e
                 = firstWithContent (columnValues (column e) (row0 :: rest))
                 /\ ((forall v,
                         In v (columnValues (column e) (row0 :: rest)) ->
                         hasContent v = false) ->
                     example e = VNull)) es
    /\ Forall2 (fun e e' =>
                  column e' = column e
                  /\ (example e <> VNull -> example e' = example e)) es es'.
Proof.
  exists (map (entryFor rt (row0 :: rest)) (Object_keys row0)),
         (map (entryFor rt (row0 :: rest ++ later)) (Object_keys row0)).
  split; [apply generateDataDictionary_entries|].
  split; [apply generateDataDictionary_entries|].
  split; [apply entryFor_columns|]. split.
  - apply Forall_forall. intros e He. apply in_map_iff in He as (k & <- & _).
    destruct (entryFor_fields rt (row0 :: rest) k) as (-> & _ & -> & _).
    rewrite scan_example_first. split; [reflexivity|].
    apply firstWithContent_none.
  - induction (Object_keys row0) as [|k keys IH]; cbn [map]; constructor;
      [|exact IH].
    destruct (entryFor_fields rt (row0 :: rest) k) as (-> & _ & -> & _).
    destruct (entryFor_fields rt (row0 :: rest ++ later) k)
      as (-> & _ & -> & _).
    split; [reflexivity|].
    apply (scan_example_kept rt k (row0 :: rest) later).
Qed.

Lemma example_is_first_with_content_witness :
  exists es es',
    generateDataDictionary (HostDate.iso_host 0)
      [[(lit "code", VString (lit ""))]; [(lit "code", VString (lit "a"))]]
    = DArray es
    /\ generateDataDictionary (HostDate.iso_host 0)
         [[(lit "code", VString (lit ""))]; [(lit "code", VString (lit "a"))];
          [(lit "code", VString (lit "b"))]]
       = DArray es'
    /\ map example es = [VString (lit "a")]
    /\ map example es' = [VString (lit "a")].
Proof.
  destruct (example_is_first_with_content (HostDate.iso_host 0)
              [(lit "code", VString (lit ""))]
              [[(lit "code", VString (lit "a"))]]
              [[(lit "code", VString (lit "b"))]])
    as (es & es' & E & E' & _ & F & F2).
  exists es, es'. split; [exact E|]. split; [exact E'|].
  destruct F2 as [|e e' es0 es0' [_ Hkeep] F2]; [discriminate E|].
  destruct F2; [|discriminate E].
  inversion F as [|? ? [Hex _] _]; subst.
  assert (Ha : example e = VString (lit "a")).
  { rewrite Hex. injection E as <-. reflexivity. }
  split; cbn [map]; [now rewrite Ha|].
  rewrite Hkeep, Ha; [reflexivity|]. rewrite Ha. discriminate.
Defined.

(** C5. [chooseType] returns a type whose counter no other exceeds, and the
    first such type in the order text, int, float, bool, datetime, date,
    a counter having to be above zero and above the counters before it to
    be taken; so a tally whose six counters are equal gives [text]. *)
Theorem chooseType_ties_give_text (tc : TypeCounts) :
  (forall t, count tc t <= count tc (chooseType tc))
  /\ (forall t, rank t < rank (chooseType tc) ->
                count tc t < count tc (chooseType tc))
  /\ ((forall t, count tc t = count tc Ttext) -> chooseType tc = Ttext).
Proof.
  split; [|split].
  - apply chooseType_max.
  - apply chooseType_first.
  - intros Heq. pose proof (chooseType_first tc Ttext) as H.
    rewrite (Heq (chooseType tc)) in H.
    destruct (chooseType tc); cbn in H; try reflexivity; lia.
Qed.

Lemma chooseType_ties_give_text_witness :
  chooseType {| c_text := 3; c_int := 3; c_float := 3; c_bool := 3;
                c_datetime := 3; c_date := 3 |} = Ttext.
Proof.
  apply (proj2 (proj2 (chooseType_ties_give_text
                         {| c_text := 3; c_int := 3; c_float := 3; c_bool := 3;
                            c_datetime := 3; c_date := 3 |}))).
  intros t. destruct t; reflexivity.
Defined.

(** C7. A row adds one to the counter of the type of its value and leaves
    the five others as they are; so when a column is scanned the six
    counters add up to the number of rows of the table. *)
Theorem tally_sums_to_rows (rt : HostDate.Runtime) (header : jsstring)
  (data : list (object value)) :
  total (fst (scanColumn rt header data)) = length data
  /\ (forall tc ex row t,
         count (fst (scanRow rt header (tc, ex) row)) t
         = count tc t
           + (if Nat.eqb (rank (detectType rt (row_get row header))) (rank t)
              then 1 else 0)).
Proof.
  split.
  - unfold scanColumn. rewrite scan_total. reflexivity.
  - intros tc ex row t. rewrite scanRow_counts. cbv zeta.
    rewrite count_setCount, or_zero_id.
    destruct (Nat.eqb (rank (detectType rt (row_get row header))) (rank t))
      eqn:E; [|lia].
    apply Nat.eqb_eq in E.
    assert (detectType rt (row_get row header) = t) as ->
      by (destruct (detectType rt (row_get row header)), t;
          simpl in E; congruence).
    reflexivity.
Qed.

(** C8. A column whose values all have the type [t] is given the same type
    whatever the order of its rows (and that type is [t] when the column
    has a row). *)
Theorem homogeneous_column_type_stable (rt : HostDate.Runtime)
  (header : jsstring) (data data' : list (object value)) (t : TypeTag) :
  Permutation data data' ->
  (forall row, In row data -> detectType rt (row_get row header) = t) ->
  chooseType (fst (scanColumn rt header data'))
  = chooseType (fst (scanColumn rt header data))
  /\ (data <> [] -> chooseType (fst (scanColumn rt header data)) = t).
Proof.
  intros P Hall. split.
  - now rewrite (scan_counts_perm rt header data data' P).
  - intros Hne.
    assert (E : fst (scanColumn rt header data)
                = setCount zeroCounts t (length data)).
    { apply counts_ext. intros t'. unfold scanColumn.
      rewrite scan_count, count_setCount. unfold occurrences.
      clear P Hne. induction data as [|row data IH]; cbn [filter length].
      - destruct t, t'; reflexivity.
      - rewrite (Hall row (or_introl eq_refl)).
        specialize (IH (fun r Hr => Hall r (or_intror Hr))).
        destruct (Nat.eqb (rank t) (rank t')); cbn [length]; simpl in *; lia. }
    rewrite E. destruct data as [|row data]; [congruence|].
    apply chooseType_single.
Qed.

Lemma homogeneous_column_type_stable_witness :
  chooseType (fst (scanColumn (HostDate.iso_host 0) (lit "n")
                     [[(lit "n", VString (lit "7"))];
                      [(lit "n", VString (lit "-12"))]]))
  = chooseType (fst (scanColumn (HostDate.iso_host 0) (lit "n")
                       [[(lit "n", VString (lit "-12"))];
                        [(lit "n", VString (lit "7"))]])).
Proof.
  refine (proj1 (homogeneous_column_type_stable (HostDate.iso_host 0) (lit "n")
                   [[(lit "n", VString (lit "-12"))];
                    [(lit "n", VString (lit "7"))]]
                   [[(lit "n", VString (lit "7"))];
                    [(lit "n", VString (lit "-12"))]]
                   Tint _ _)).
  - apply perm_swap.
  - intros row [<- | [<- | []]]; reflexivity.
Defined.

(** The date rule: a string that the first four rules let through and that
    the host parses is a [date] at local midnight and a [datetime]
    otherwise. *)
Lemma detectType_date_rule (rt : HostDate.Runtime) (s : jsstring) (t : Z) :
  isBlankOrNA s = false ->
  includes booleanLiterals s = false ->
  test INT_RE s = false ->
  test FLOAT_RE s = false ->
  HostDate.Date_parse rt s = Some t ->
  detectType rt (VString s) = if localMidnight rt t then Tdate else Tdatetime.
Proof.
  intros Hb Hl Hi Hf Hp. unfold isBlankOrNA in Hb.
  apply orb_false_iff in Hb as [Hb Hw].
  apply orb_false_iff in Hb as [Hb He].
  apply orb_false_iff in Hb as [Hna Hnull].
  assert (Ht : str_eqb (trim s) (lit "") = false).
  { apply str_eqb_neq. intros E. apply trim_nil in E. congruence. }
  unfold detectType. cbn [strict_eq_str loose_eq_null ToString].
  rewrite He, Ht, Hna, Hnull. cbn [orb].
  fold booleanLiterals. rewrite Hl, Hi, Hf, Hp. reflexivity.
Qed.

(** A string that the first four rules let through and that the host does
    not parse is a [text]. *)
Lemma detectType_fallback (rt : HostDate.Runtime) (s : jsstring) :
  isBlankOrNA s = false ->
  includes booleanLiterals s = false ->
  test INT_RE s = false ->
  test FLOAT_RE s = false ->
  HostDate.Date_parse rt s = None ->
  detectType rt (VString s) = Ttext.
Proof.
  intros Hb Hl Hi Hf Hp. unfold isBlankOrNA in Hb.
  apply orb_false_iff in Hb as [Hb Hw].
  apply orb_false_iff in Hb as [Hb He].
  apply orb_false_iff in Hb as [Hna Hnull].
  assert (Ht : str_eqb (trim s) (lit "") = false).
  { apply str_eqb_neq. intros E. apply trim_nil in E. congruence. }
  unfold detectType. cbn [strict_eq_str loose_eq_null ToString].
  rewrite He, Ht, Hna, Hnull. cbn [orb].
  fold booleanLiterals. rewrite Hl, Hi, Hf, Hp. reflexivity.
Qed.

(** ["2023-01-01"], which a host reads as midnight UTC of that day, is a
    [date] or a [datetime] according to the local time of the host at
    that instant. *)
Lemma detectType_2023_01_01 (rt : HostDate.Runtime) :
  HostDate.Date_parse rt (lit "2023-01-01") = Some 1672531200000%Z ->
  detectType rt (VString (lit "2023-01-01"))
  = if localMidnight rt 1672531200000 then Tdate else Tdatetime.
Proof.
  intros Hp. now apply detectType_date_rule.
Qed.

(** A host that reads ["2023-01-01"] as ECMAScript prescribes classifies it
    [date] exactly when its local time at that instant is within the first
    second of a day, which for a zone within fourteen hours of UTC and a whole number of
    seconds away from it means an offset of zero. *)
Lemma detectType_2023_01_01_offset (rt : HostDate.Runtime) :
  HostDate.Date_parse rt (lit "2023-01-01") = Some 1672531200000%Z ->
  (- 14 * HostDate.msPerHour <= HostDate.LocalTZA rt 1672531200000
   <= 14 * HostDate.msPerHour)%Z ->
  detectType rt (VString (lit "2023-01-01")) = Tdate
  <-> (0 <= HostDate.LocalTZA rt 1672531200000 < 1000)%Z.
Proof.
  intros Hp Hr. rewrite (detectType_2023_01_01 rt Hp).
  unfold localMidnight, HostDate.getHours, HostDate.getMinutes,
    HostDate.getSeconds, HostDate.HourFromTime, HostDate.MinFromTime,
    HostDate.SecFromTime, HostDate.LocalTime, HostDate.msPerHour,
    HostDate.msPerMinute, HostDate.msPerSecond, HostDate.msPerDay in *.
  set (off := HostDate.LocalTZA rt 1672531200000) in *.
  destruct (((1672531200000 + off) / 3600000 mod 24 =? 0)%Z
            && ((1672531200000 + off) / 60000 mod 60 =? 0)%Z
            && ((1672531200000 + off) / 1000 mod 60 =? 0)%Z) eqn:E.
  - split; [intros _|reflexivity].
    apply andb_true_iff in E as [E E3]. apply andb_true_iff in E as [E1 E2].
    apply Z.eqb_eq in E1, E2, E3.
    Z.div_mod_to_equations. lia.
  - split; [discriminate|]. intros Ho. exfalso.
    apply andb_false_iff in E as [E|E]; [apply andb_false_iff in E as [E|E]|];
      apply Z.eqb_neq in E; apply E; clear E;
      Z.div_mod_to_equations; lia.
Qed.

(** In a host on UTC the value is a [date]. *)
Lemma detectType_2023_01_01_utc :
  detectType (HostDate.iso_host 0) (VString (lit "2023-01-01")) = Tdate.
Proof. reflexivity. Qed.

(** C6. In a host five hours west of Greenwich ["2023-01-01"], which is
    read as midnight UTC, is 19:00 of the day before in local time, and the
    classifier answers [datetime], not [date]. *)
Theorem detectType_2023_01_01_utc_minus_5 :
  HostDate.Date_parse (HostDate.iso_host (-18000000)) (lit "2023-01-01")
  = Some 1672531200000%Z
  /\ HostDate.getHours (HostDate.iso_host (-18000000)) 1672531200000 = 19%Z
  /\ detectType (HostDate.iso_host (-18000000)) (VString (lit "2023-01-01"))
     = Tdatetime.
Proof.
  split; [reflexivity|]. split; [reflexivity|].
  rewrite detectType_2023_01_01; reflexivity.
Qed.

(* ===================================================================== *)
(** ** Sorting, keys and objects *)
(* ===================================================================== *)

Section SortFacts.

Context {A : Type} (leb : A -> A -> bool).

Lemma insert_sorted_perm (x : A) (l : list A) :
  Permutation (insert_sorted leb x l) (x :: l).
Proof.
  induction l as [|y l IH]; simpl; [reflexivity|].
  destruct (leb y x); [|reflexivity].
  rewrite IH. apply perm_swap.
Qed.

Lemma sort_by_perm (l : list A) : Permutation (sort_by leb l) l.
Proof.
  unfold sort_by.
  enough (H : forall acc, Permutation (fold_left
                 (fun acc x => insert_sorted leb x acc) l acc) (l ++ acc)).
  { rewrite H, app_nil_r. reflexivity. }
  induction l as [|x l IH]; intros acc; simpl; [reflexivity|].
  rewrite IH, insert_sorted_perm. symmetry. apply Permutation_middle.
Qed.

Hypothesis leb_total : forall a b, leb a b = true \/ leb b a = true.
Hypothesis leb_trans :
  forall a b c, leb a b = true -> leb b c = true -> leb a c = true.
Hypothesis leb_antisym : forall a b, leb a b = true -> leb b a = true -> a = b.

Local Abbreviation le := (holds leb).

Lemma insert_sorted_sorted (x : A) (l : list A) :
  StronglySorted le l -> StronglySorted le (insert_sorted leb x l).
Proof.
  induction 1 as [|y l Hs IH Hy]; simpl.
  - repeat constructor.
  - destruct (leb y x) eqn:E.
    + constructor; [exact IH|].
      apply Forall_forall. intros z Hz.
      apply (Permutation_in _ (insert_sorted_perm x l)) in Hz.
      destruct Hz as [<- | Hz]; [exact E|].
      rewrite Forall_forall in Hy. apply Hy, Hz.
    + assert (Hxy : le x y) by (destruct (leb_total x y); [assumption | congruence]).
      constructor; [constructor; assumption|].
      constructor; [exact Hxy|].
      rewrite Forall_forall in *. intros z Hz.
      apply (leb_trans x y z Hxy). apply Hy, Hz.
Qed.

Lemma sort_by_sorted (l : list A) : StronglySorted le (sort_by leb l).
Proof.
  unfold sort_by.
  enough (H : forall acc, StronglySorted le acc ->
                StronglySorted le (fold_left
                  (fun acc x => insert_sorted leb x acc) l acc)).
  { apply H. constructor. }
  induction l as [|x l IH]; intros acc Hacc; simpl; [exact Hacc|].
  apply IH, insert_sorted_sorted, Hacc.
Qed.

(** Two ordered arrangements of the same elements are the same list. *)
Lemma sorted_perm_eq (l1 l2 : list A) :
  StronglySorted le l1 -> StronglySorted le l2 -> Permutation l1 l2 -> l1 = l2.
Proof.
  intros H1. revert l2. induction H1 as [|x l1 Hs1 IH Hx]; intros l2 H2 P.
  - apply Permutation_nil in P. now subst.
  - destruct H2 as [|y l2 Hs2 Hy].
    + symmetry in P. apply Permutation_nil in P. discriminate.
    + assert (x = y) as <-.
      { rewrite Forall_forall in Hx, Hy.
        assert (Hin1 : In x (y :: l2))
          by (apply (Permutation_in _ P); now left).
        assert (Hin2 : In y (x :: l1))
          by (apply (Permutation_in _ (Permutation_sym P)); now left).
        destruct Hin1 as [E | Hin1]; [now subst|].
        destruct Hin2 as [E | Hin2]; [now subst|].
        apply leb_antisym; [apply Hx, Hin2 | apply Hy, Hin1]. }
      f_equal. apply IH; [exact Hs2|]. eapply Permutation_cons_inv, P.
Qed.

Lemma sort_by_perm_eq (l1 l2 : list A) :
  Permutation l1 l2 -> sort_by leb l1 = sort_by leb l2.
Proof.
  intros P. apply sorted_perm_eq; try apply sort_by_sorted.
  rewrite !sort_by_perm. exact P.
Qed.

End SortFacts.

Section OrderFacts.

Lemma str_leb_total (a b : jsstring) :
  str_leb a b = true \/ str_leb b a = true.
Proof.
  revert b. induction a as [|x a IH]; intros [|y b]; simpl; auto.
  destruct (N.ltb_spec x y), (N.ltb_spec y x); auto; try lia.
  assert (x = y) as -> by lia. rewrite N.eqb_refl. apply IH.
Qed.

Lemma str_leb_trans (a b c : jsstring) :
  str_leb a b = true -> str_leb b c = true -> str_leb a c = true.
Proof.
  revert b c. induction a as [|x a IH]; intros [|y b] [|z c]; simpl; auto;
    try discriminate.
  destruct (N.ltb_spec x y), (N.ltb_spec y z), (N.ltb_spec x z); auto;
    try lia;
    destruct (N.eqb_spec x y), (N.eqb_spec y z), (N.eqb_spec x z);
    try discriminate; try lia; auto.
  apply IH.
Qed.

Lemma str_leb_antisym (a b : jsstring) :
  str_leb a b = true -> str_leb b a = true -> a = b.
Proof.
  revert b. induction a as [|x a IH]; intros [|y b]; simpl; auto;
    try discriminate.
  destruct (N.ltb_spec x y), (N.ltb_spec y x); try lia; try discriminate.
  - destruct (N.eqb_spec y x); [lia | discriminate].
  - destruct (N.eqb_spec x y); [lia | discriminate].
  - destruct (N.eqb_spec x y), (N.eqb_spec y x); try discriminate; try lia.
    intros H1 H2. subst. f_equal. now apply IH.
Qed.

(** [sort] arranges the arrays of the same strings in the same way. *)
Lemma sort_perm_eq (l1 l2 : list jsstring) :
  Permutation l1 l2 -> sort l1 = sort l2.
Proof.
  apply sort_by_perm_eq.
  - apply str_leb_total.
  - apply str_leb_trans.
  - apply str_leb_antisym.
Qed.

Lemma sort_perm (l : list jsstring) : Permutation (sort l) l.
Proof. apply sort_by_perm. Qed.

End OrderFacts.

Section ObjectFacts.

Context {V : Type}.

Lemma filter_split_perm {A : Type} (p : A -> bool) (l : list A) :
  Permutation (filter p l ++ filter (fun x => negb (p x)) l) l.
Proof.
  induction l as [|x l IH]; simpl; [reflexivity|].
  destruct (p x); simpl.
  - now constructor.
  - rewrite <- Permutation_middle. now constructor.
Qed.

(** [Object.keys] lists the names of the properties, each once. *)
Lemma Object_keys_perm (o : object V) : Permutation (Object_keys o) (map fst o).
Proof.
  unfold Object_keys. rewrite sort_by_perm. apply filter_split_perm.
Qed.

Lemma Object_keys_In (o : object V) (k : jsstring) :
  In k (Object_keys o) <-> In k (map fst o).
Proof.
  split; apply Permutation_in;
    [apply Object_keys_perm | symmetry; apply Object_keys_perm].
Qed.

Lemma get_set (o : object V) (k k' : jsstring) (v : V) :
  get (set o k v) k' = if str_eqb k k' then Some v else get o k'.
Proof.
  induction o as [|[k0 v0] o IH]; simpl.
  - reflexivity.
  - destruct (str_eqb k0 k) eqn:E; simpl.
    + apply str_eqb_eq in E. subst k0. destruct (str_eqb k k'); reflexivity.
    + rewrite IH. destruct (str_eqb k0 k') eqn:E'; [|reflexivity].
      apply str_eqb_eq in E'. subst k0. now rewrite str_eqb_sym, E.
Qed.

Lemma set_keys_In (o : object V) (k k' : jsstring) (v : V) :
  In k' (map fst (set o k v)) <-> k = k' \/ In k' (map fst o).
Proof.
  induction o as [|[k0 v0] o IH]; simpl.
  - tauto.
  - destruct (str_eqb k0 k) eqn:E; simpl.
    + apply str_eqb_eq in E. subst k0. tauto.
    + rewrite IH. tauto.
Qed.

Lemma set_keys_NoDup (o : object V) (k : jsstring) (v : V) :
  NoDup (map fst o) -> NoDup (map fst (set o k v)).
Proof.
  induction o as [|[k0 v0] o IH]; simpl; intros H.
  - repeat constructor. tauto.
  - inversion H as [|? ? Hnin Hnd]; subst.
    destruct (str_eqb k0 k) eqn:E; simpl.
    + now constructor.
    + constructor; [|apply IH, Hnd].
      rewrite set_keys_In. intros [-> | Hin]; [|tauto].
      now rewrite str_eqb_refl in E.
Qed.

Lemma fold_set_keys_In (es : list (jsstring * V)) (o : object V)
  (k : jsstring) :
  In k (map fst (fold_left (fun o kv => set o (fst kv) (snd kv)) es o))
  <-> In k (map fst es) \/ In k (map fst o).
Proof.
  revert o. induction es as [|[k0 v0] es IH]; intros o; simpl.
  - tauto.
  - rewrite IH, set_keys_In. tauto.
Qed.

Lemma fold_set_keys_NoDup (es : list (jsstring * V)) (o : object V) :
  NoDup (map fst o) ->
  NoDup (map fst (fold_left (fun o kv => set o (fst kv) (snd kv)) es o)).
Proof.
  revert o. induction es as [|[k0 v0] es IH]; intros o H; simpl.
  - exact H.
  - apply IH, set_keys_NoDup, H.
Qed.

Lemma find_append {A : Type} (p : A -> bool) (l1 l2 : list A) :
  find p (l1 ++ l2)
  = match find p l1 with Some x => Some x | None => find p l2 end.
Proof.
  induction l1 as [|x l1 IH]; simpl; [reflexivity|].
  destruct (p x); [reflexivity | exact IH].
Qed.

Lemma fold_set_get (es : list (jsstring * V)) (o : object V) (k : jsstring) :
  get (fold_left (fun o kv => set o (fst kv) (snd kv)) es o) k
  = match find (fun kv => str_eqb (fst kv) k) (rev es) with
    | Some kv => Some (snd kv)
    | None => get o k
    end.
Proof.
  revert o. induction es as [|[k0 v0] es IH]; intros o; simpl.
  - reflexivity.
  - rewrite IH, find_append.
    destruct (find (fun kv => str_eqb (fst kv) k) (rev es)); [reflexivity|].
    simpl. rewrite get_set. destruct (str_eqb k0 k); reflexivity.
Qed.

(** The names of [Object.fromEntries(entries)] are those of the entries. *)
Lemma fromEntries_keys_In (es : list (jsstring * V)) (k : jsstring) :
  In k (Object_keys (Object_fromEntries es)) <-> In k (map fst es).
Proof.
  rewrite Object_keys_In. unfold Object_fromEntries.
  rewrite fold_set_keys_In. simpl. tauto.
Qed.

Lemma fromEntries_keys_NoDup (es : list (jsstring * V)) :
  NoDup (Object_keys (Object_fromEntries es)).
Proof.
  eapply Permutation_NoDup.
  - symmetry. apply Object_keys_perm.
  - apply fold_set_keys_NoDup. constructor.
Qed.

(** A name is bound to the value of its last entry. *)
Lemma fromEntries_get (es : list (jsstring * V)) (k : jsstring) :
  get (Object_fromEntries es) k
  = option_map snd (find (fun kv => str_eqb (fst kv) k) (rev es)).
Proof.
  unfold Object_fromEntries. rewrite fold_set_get.
  destruct (find _ (rev es)); reflexivity.
Qed.

End ObjectFacts.

Section JoinFacts.

Lemma comma_free_prefix (x y t1 t2 : jsstring) :
  ~ In (cu ",") x -> ~ In (cu ",") y ->
  (t1 = [] \/ exists u, t1 = cu "," :: u) ->
  (t2 = [] \/ exists u, t2 = cu "," :: u) ->
  x ++ t1 = y ++ t2 -> x = y /\ t1 = t2.
Proof.
  revert y. induction x as [|c x IH]; intros y Hx Hy H1 H2 E.
  - destruct y as [|d y]; [auto|]. simpl in E.
    destruct H1 as [-> | (u & ->)]; [discriminate|].
    inversion E; subst. exfalso. apply Hy. now left.
  - destruct y as [|d y]; simpl in E.
    + destruct H2 as [-> | (u & ->)]; [discriminate|].
      inversion E; subst. exfalso. apply Hx. now left.
    + inversion E; subst.
      destruct (IH y) with (5 := H3) as [-> ->]; auto.
      * intros Hin. apply Hx. now right.
      * intros Hin. apply Hy. now right.
Qed.

Lemma join_cons (x : jsstring) (l : list jsstring) :
  join (x :: l) = x ++ match l with [] => [] | _ => cu "," :: join l end.
Proof. destruct l; simpl; [now rewrite app_nil_r | reflexivity]. Qed.

(** [join] tells apart the arrays of names that are not empty and hold no
    comma. *)
Lemma join_inj (l1 l2 : list jsstring) :
  Forall plainName l1 -> Forall plainName l2 -> join l1 = join l2 -> l1 = l2.
Proof.
  intros F1. revert l2. induction F1 as [|x l1 [Hx Cx] F1 IH];
    intros l2 F2 E.
  - destruct F2 as [|y l2 [Hy Cy] F2]; [reflexivity|].
    rewrite join_cons in E. simpl in E. destruct y; [congruence | discriminate].
  - destruct F2 as [|y l2 [Hy Cy] F2].
    + rewrite join_cons in E. simpl in E.
      destruct x; [congruence | discriminate].
    + rewrite !join_cons in E.
      apply comma_free_prefix in E as [-> E]; auto.
      * f_equal. destruct l1, l2; try discriminate; [reflexivity|].
        inversion E. apply IH; assumption.
      * destruct l1; eauto.
      * destruct l2; eauto.
Qed.

End JoinFacts.

(* ===================================================================== *)
(** ** Properties of ckan.js *)
(* ===================================================================== *)

Section SchemaFacts.

Import Ckan.

Lemma find_map {A B : Type} (p : B -> bool) (f : A -> B) (l : list A) :
  find p (map f l) = option_map f (find (fun x => p (f x)) l).
Proof.
  induction l as [|x l IH]; simpl; [reflexivity|].
  destruct (p (f x)); [reflexivity | exact IH].
Qed.

Lemma schemaDict_keys_In (schema : list Field) (k : jsstring) :
  In k (Object_keys (schemaDict schema)) <-> In k (names schema).
Proof.
  unfold schemaDict, names. rewrite fromEntries_keys_In, map_map. reflexivity.
Qed.

Lemma schemaDict_keys_NoDup (schema : list Field) :
  NoDup (Object_keys (schemaDict schema)).
Proof. apply fromEntries_keys_NoDup. Qed.

(** [schemaDict(schema)[k]] is the type that the schema declares for [k]. *)
Lemma schemaDict_get (schema : list Field) (k : jsstring) :
  get (schemaDict schema) k = declaredType schema k.
Proof.
  unfold schemaDict, declaredType.
  rewrite fromEntries_get, <- map_rev, find_map.
  destruct (find _ (rev schema)); reflexivity.
Qed.

Lemma strict_neq_true (x y : option jsstring) :
  strict_neq x y = true <-> x <> y.
Proof.
  destruct x as [s|], y as [t|]; simpl; try (split; congruence).
  rewrite negb_true_iff, str_eqb_neq. split; congruence.
Qed.

Lemma declaredType_Some (schema : list Field) (k : jsstring) :
  In k (names schema) -> declaredType schema k <> None.
Proof.
  unfold declaredType, names. intros Hin.
  apply in_map_iff in Hin as (f & <- & Hf).
  destruct (find (fun f0 => str_eqb (id f0) (id f)) (rev schema)) eqn:F;
    [discriminate|].
  apply in_rev in Hf. apply (find_none _ _ F f) in Hf.
  now rewrite str_eqb_refl in Hf.
Qed.

Lemma declaredType_None (schema : list Field) (k : jsstring) :
  ~ In k (names schema) -> declaredType schema k = None.
Proof.
  unfold declaredType, names. intros Hnin.
  destruct (find (fun f => str_eqb (id f) k) (rev schema)) as [f|] eqn:F;
    [|reflexivity].
  apply find_some in F as [Hin E]. apply str_eqb_eq in E. subst k.
  exfalso. apply Hnin, in_map, in_rev, Hin.
Qed.

Lemma typeMismatches_In (src dst : list Field) (k : jsstring) :
  In k (typeMismatches (compareFields src dst))
  <-> In k (names src) /\ declaredType src k <> declaredType dst k.
Proof.
  unfold compareFields. cbn [typeMismatches].
  rewrite filter_In, schemaDict_keys_In, strict_neq_true, !schemaDict_get.
  reflexivity.
Qed.

Lemma same_keys_perm (src dst : list Field) :
  sameNameSet src dst <->
  Permutation (Object_keys (schemaDict src)) (Object_keys (schemaDict dst)).
Proof.
  split.
  - intros H. apply NoDup_Permutation; try apply schemaDict_keys_NoDup.
    intros k. rewrite !schemaDict_keys_In. apply H.
  - intros P k. rewrite <- !schemaDict_keys_In.
    split; apply Permutation_in; [exact P | symmetry; exact P].
Qed.

Lemma sameNames_of_same_set (src dst : list Field) :
  sameNameSet src dst -> sameNames (compareFields src dst) = true.
Proof.
  intros H. unfold compareFields. cbn [sameNames].
  apply same_keys_perm in H. rewrite (sort_perm_eq _ _ H).
  apply str_eqb_refl.
Qed.

Lemma sorted_keys_plain (schema : list Field) :
  Forall plainName (names schema) ->
  Forall plainName (sort (Object_keys (schemaDict schema))).
Proof.
  rewrite !Forall_forall. intros H k Hin. apply H.
  apply (Permutation_in _ (sort_perm _)) in Hin.
  now apply schemaDict_keys_In.
Qed.

Lemma same_set_of_sameNames (src dst : list Field) :
  Forall plainName (names src) -> Forall plainName (names dst) ->
  sameNames (compareFields src dst) = true -> sameNameSet src dst.
Proof.
  intros Hs Hd H. unfold compareFields in H. cbn [sameNames] in H.
  apply str_eqb_eq in H.
  apply join_inj in H; try now apply sorted_keys_plain.
  apply same_keys_perm.
  rewrite <- (sort_perm (Object_keys (schemaDict src))), H.
  apply sort_perm.
Qed.

End SchemaFacts.

Lemma compareSchemas_run (portal : Ckan.Request -> option Ckan.Result)
  (site srcId dstId key : jsstring) (src dst : list Ckan.Field) :
  portal (searchRequest site srcId key) = Some {| Ckan.fields := src |} ->
  portal (searchRequest site dstId key) = Some {| Ckan.fields := dst |} ->
  Ckan.run portal (Ckan.compareSchemas site srcId dstId key)
  = Some (Ckan.compareFields src dst).
Proof.
  intros Hs Hd. unfold Ckan.compareSchemas, Ckan.getSchema, Ckan.ckanCall.
  cbn [Ckan.bind Ckan.run].
  fold (searchRequest site srcId key). rewrite Hs.
  cbn [Ckan.bind Ckan.run Ckan.fields].
  fold (searchRequest site dstId key). rewrite Hd.
  reflexivity.
Qed.

(** C9. [setDataDictionary] makes one [datastore_create] call; the fields
    it sends are those it was given, less the first one when the id of that
    one is ["_id"]; a field of that id further on is sent like the others. *)
Theorem setDataDictionary_drops_leading_id (site resId key : jsstring)
  (refFields : list Ckan.Field) :
  Ckan.setDataDictionary site resId refFields key
  = Ckan.ckanCall site (lit "datastore_create")
      (Ckan.DatastoreCreate resId (Ckan.fieldsToSend refFields) true) key
  /\ (forall f rest,
         Ckan.id f = lit "_id" -> Ckan.fieldsToSend (f :: rest) = rest)
  /\ (forall f rest,
         Ckan.id f <> lit "_id" -> Ckan.fieldsToSend (f :: rest) = f :: rest)
  /\ Ckan.fieldsToSend [] = []
  /\ (forall f, In f (tl refFields) -> In f (Ckan.fieldsToSend refFields)).
Proof.
  split; [reflexivity|]. split; [|split; [|split]].
  - intros f rest H. unfold Ckan.fieldsToSend. cbn [nth_error].
    rewrite H. reflexivity.
  - intros f rest H. unfold Ckan.fieldsToSend. cbn [nth_error].
    apply str_eqb_neq in H. now rewrite H.
  - reflexivity.
  - intros f Hin. destruct refFields as [|g rest]; [destruct Hin|].
    unfold Ckan.fieldsToSend. cbn [nth_error tl] in *.
    destruct (str_eqb (Ckan.id g) (lit "_id")); [exact Hin | now right].
Qed.

Lemma setDataDictionary_drops_leading_id_witness :
  let f_id := {| Ckan.id := lit "_id"; Ckan.type := lit "int";
                 Ckan.info := None |} in
  let f_a := {| Ckan.id := lit "a"; Ckan.type := lit "text";
                Ckan.info := None |} in
  Ckan.fieldsToSend [f_id; f_a; f_id] = [f_a; f_id]
  /\ Ckan.fieldsToSend [f_a; f_id] = [f_a; f_id].
Proof.
  intros f_id f_a.
  destruct (setDataDictionary_drops_leading_id (lit "s") (lit "r") (lit "k") [])
    as (_ & Hdrop & Hkeep & _).
  split.
  - apply Hdrop. reflexivity.
  - apply Hkeep. discriminate.
Defined.

(** [sameNames] is not the equality of the sets of names: the schema of
    the one field ["a,b"] and the schema of the two fields ["a"] and ["b"]
    get [sameNames = true]. *)
Lemma sameNames_confuses_commas :
  ~ (forall (portal : Ckan.Request -> option Ckan.Result)
            (site srcId dstId key : jsstring) (src dst : list Ckan.Field)
            (c : Ckan.Comparison),
        portal (searchRequest site srcId key) = Some {| Ckan.fields := src |} ->
        portal (searchRequest site dstId key) = Some {| Ckan.fields := dst |} ->
        Ckan.run portal (Ckan.compareSchemas site srcId dstId key) = Some c ->
        (forall k, In k (Ckan.typeMismatches c)
                   <-> In k (names src)
                       /\ declaredType src k <> declaredType dst k)
        /\ (Ckan.sameNames c = true <-> sameNameSet src dst)).
Proof.
  intros H.
  set (src := [ {| Ckan.id := lit "a,b"; Ckan.type := lit "text";
                   Ckan.info := None |} ]).
  set (dst := [ {| Ckan.id := lit "a"; Ckan.type := lit "text";
                   Ckan.info := None |};
                {| Ckan.id := lit "b"; Ckan.type := lit "text";
                   Ckan.info := None |} ]).
  destruct (H (twoResources (lit "s") (lit "d") src dst)
              (lit "https://portal") (lit "s") (lit "d") (lit "")
              src dst (Ckan.compareFields src dst)
              eq_refl eq_refl eq_refl) as [_ [Hsame _]].
  specialize (Hsame eq_refl (lit "a,b")).
  destruct Hsame as [Hin _].
  destruct (Hin (or_introl eq_refl)) as [E | [E | []]]; discriminate E.
Qed.

(** What [compareSchemas] does achieve.  When the portal answers the two
    requests, it resolves; [typeMismatches] holds the names of the source
    whose declared type is not the one the destination declares for the
    name, the names the destination lacks among them, and no name that the
    destination alone has; [sameNames] is true when the two schemas have
    the same set of names, in whatever order; the converse is proved for
    names that are not empty and hold no comma, the ones that the join of
    the sorted names tells apart. *)
Theorem compareSchemas_mismatches_and_names
  (portal : Ckan.Request -> option Ckan.Result)
  (site srcId dstId key : jsstring) (src dst : list Ckan.Field) :
  portal (searchRequest site srcId key) = Some {| Ckan.fields := src |} ->
  portal (searchRequest site dstId key) = Some {| Ckan.fields := dst |} ->
  exists c,
    Ckan.run portal (Ckan.compareSchemas site srcId dstId key) = Some c
    /\ (forall k, In k (Ckan.typeMismatches c)
                  <-> In k (names src)
                      /\ declaredType src k <> declaredType dst k)
    /\ (forall k, In k (names src) -> ~ In k (names dst) ->
                  In k (Ckan.typeMismatches c))
    /\ (forall k, ~ In k (names src) -> ~ In k (Ckan.typeMismatches c))
    /\ (sameNameSet src dst -> Ckan.sameNames c = true)
    /\ (Forall plainName (names src) -> Forall plainName (names dst) ->
        Ckan.sameNames c = true -> sameNameSet src dst).
Proof.
  intros Hs Hd. exists (Ckan.compareFields src dst).
  split; [now apply compareSchemas_run|].
  split; [apply typeMismatches_In|].
  split; [|split; [|split]].
  - intros k Hin Hnin. apply typeMismatches_In. split; [exact Hin|].
    rewrite (declaredType_None dst k Hnin). now apply declaredType_Some.
  - intros k Hnin Hin. apply typeMismatches_In in Hin. tauto.
  - apply sameNames_of_same_set.
  - apply same_set_of_sameNames.
Qed.

Lemma compareSchemas_mismatches_and_names_witness :
  let src := [ {| Ckan.id := lit "b"; Ckan.type := lit "int";
                  Ckan.info := None |};
               {| Ckan.id := lit "a"; Ckan.type := lit "text";
                  Ckan.info := None |} ] in
  let dst := [ {| Ckan.id := lit "a"; Ckan.type := lit "text";
                  Ckan.info := None |};
               {| Ckan.id := lit "b"; Ckan.type := lit "float";
                  Ckan.info := None |} ] in
  exists c,
    Ckan.run (twoResources (lit "s") (lit "d") src dst)
      (Ckan.compareSchemas (lit "https://portal") (lit "s") (lit "d") (lit ""))
    = Some c
    /\ Ckan.sameNames c = true
    /\ (forall k, In k (Ckan.typeMismatches c) -> k = lit "b").
Proof.
  intros src dst.
  destruct (compareSchemas_mismatches_and_names
              (twoResources (lit "s") (lit "d") src dst)
              (lit "https://portal") (lit "s") (lit "d") (lit "") src dst
              eq_refl eq_refl)
    as (c & Hrun & Hmis & _ & _ & Hsame & _).
  exists c. split; [exact Hrun|]. split.
  - apply Hsame. intros k. simpl. tauto.
  - intros k Hin. apply Hmis in Hin as [[E | [E | []]] Hne].
    + now symmetry.
    + subst k. exfalso. apply Hne. reflexivity.
Defined.

(* ===================================================================== *)
(** ** Further properties of the classifier *)
(* ===================================================================== *)

Section ClassifierTable.

Variable rt : HostDate.Runtime.

Lemma trim_empty_white (s : jsstring) :
  str_eqb (trim s) (lit "") = forallb is_white_space s.
Proof.
  destruct (forallb is_white_space s) eqn:E.
  - apply str_eqb_eq. apply trim_nil, E.
  - apply str_eqb_neq. intros H. apply trim_nil in H. congruence.
Qed.

(** The rules of [detectType] on a string, in their order. *)
Lemma detectType_table (s : jsstring) :
  detectType rt (VString s)
  = if isBlankOrNA s then Ttext
    else if includes booleanLiterals s then Tbool
    else if test INT_RE s then Tint
    else if test FLOAT_RE s then Tfloat
    else match HostDate.Date_parse rt s with
         | Some t => if localMidnight rt t then Tdate else Tdatetime
         | None => Ttext
         end.
Proof.
  unfold detectType, isBlankOrNA. cbn [strict_eq_str loose_eq_null ToString].
  rewrite trim_empty_white. fold booleanLiterals.
  destruct (str_eqb s (lit "")), (forallb is_white_space s),
    (str_eqb s (lit "NA")), (str_eqb s (lit "NULL")); reflexivity.
Qed.

(** The rules of [detectType] on an object: the two patterns and the date
    parser, applied to its text. *)
Lemma detectType_object (text : jsstring) :
  detectType rt (VObject text)
  = if test INT_RE text then Tint
    else if test FLOAT_RE text then Tfloat
    else match HostDate.Date_parse rt text with
         | Some t => if localMidnight rt t then Tdate else Tdatetime
         | None => Ttext
         end.
Proof. reflexivity. Qed.

Lemma includes_In (arr : list jsstring) (s : jsstring) :
  includes arr s = true <-> In s arr.
Proof.
  unfold includes. rewrite existsb_exists. split.
  - intros (x & Hin & E). apply str_eqb_eq in E. now subst.
  - intros Hin. exists s. split; [exact Hin | apply str_eqb_refl].
Qed.

Lemma point_not_space : is_white_space (cu ".") = false.
Proof. reflexivity. Qed.

Lemma blank_no_point (s : jsstring) :
  isBlankOrNA s = true -> ~ In (cu ".") s.
Proof.
  unfold isBlankOrNA. rewrite !orb_true_iff, !str_eqb_eq.
  intros [[[-> | ->] | ->] | Hw] Hin.
  - cbv in Hin. intuition discriminate.
  - cbv in Hin. intuition discriminate.
  - destruct Hin.
  - rewrite forallb_forall in Hw. apply Hw in Hin. discriminate Hin.
Qed.

Lemma literal_no_point (s : jsstring) :
  includes booleanLiterals s = true -> ~ In (cu ".") s.
Proof.
  rewrite includes_In. unfold booleanLiterals. intros Hs Hin.
  repeat destruct Hs as [<- | Hs]; try destruct Hs;
    cbv in Hin; intuition discriminate.
Qed.

Lemma literal_not_blank (s : jsstring) :
  includes booleanLiterals s = true -> isBlankOrNA s = false.
Proof.
  rewrite includes_In. unfold booleanLiterals. intros Hs.
  repeat destruct Hs as [<- | Hs]; try destruct Hs; reflexivity.
Qed.

Lemma forallb_digit_no_point (ds : jsstring) :
  forallb is_digit ds = true -> ~ In (cu ".") ds.
Proof.
  intros H Hin. rewrite forallb_forall in H. apply H in Hin. discriminate Hin.
Qed.

Lemma int_no_point (s : jsstring) :
  test INT_RE s = true -> ~ In (cu ".") s.
Proof.
  intros H. apply INT_RE_lang in H as (ds & _ & D & [-> | ->]).
  - now apply forallb_digit_no_point.
  - intros [E | Hin]; [discriminate E|].
    now apply (forallb_digit_no_point ds).
Qed.

Lemma int_not_blank (s : jsstring) :
  test INT_RE s = true -> isBlankOrNA s = false.
Proof.
  intros H. destruct (INT_RE_head s H) as (c & r & -> & Hc).
  pose proof (digit_or_minus_not_space c Hc) as Hw.
  assert (Hlo : (45 <= c <= 57)%N).
  { destruct Hc as [D | ->]; [|cbv; split; discriminate].
    unfold is_digit in D. apply andb_true_iff in D as [D1 D2].
    apply N.leb_le in D1, D2. lia. }
  unfold isBlankOrNA.
  change (lit "NA") with (78 :: lit "A")%N.
  change (lit "NULL") with (78 :: lit "ULL")%N.
  rewrite !str_eqb_head_neq by lia.
  cbn [forallb]. rewrite Hw. reflexivity.
Qed.

Lemma float_has_point (s : jsstring) :
  test FLOAT_RE s = true -> In (cu ".") s.
Proof.
  intros H. apply FLOAT_RE_lang in H as (sign & ip & fp & -> & _).
  apply in_or_app. right. apply in_or_app. right. now left.
Qed.

(** The last code unit of a match of the float pattern is a digit. *)
Lemma float_ends_with_digit (s : jsstring) :
  test FLOAT_RE s = true -> is_digit (last s 0%N) = true.
Proof.
  intros H. apply FLOAT_RE_lang in H as (sign & ip & fp & -> & _ & _ & Hne & D).
  assert (L : forall (a b : jsstring), b <> [] -> last (a ++ b) 0%N = last b 0%N).
  { intros a b Hb. induction a as [|x a IH]; [reflexivity|].
    cbn [app]. destruct (a ++ b) eqn:E; [|exact IH].
    apply app_eq_nil in E as [_ ->]. congruence. }
  rewrite L by (destruct ip; discriminate).
  rewrite L by discriminate.
  change (cu "." :: fp) with ([cu "."] ++ fp). rewrite L by exact Hne.
  rewrite forallb_forall in D. apply D.
  destruct fp as [|c fp]; [congruence|].
  clear. revert c. induction fp as [|d fp IH]; intros c; [now left|].
  right. apply IH.
Qed.

End ClassifierTable.

(** X1. A string is classified [bool] exactly when it is one of the six
    literals, in every host. *)
Theorem detectType_bool_iff (rt : HostDate.Runtime) (s : jsstring) :
  detectType rt (VString s) = Tbool <-> In s booleanLiterals.
Proof.
  rewrite <- includes_In, detectType_table. split.
  - destruct (isBlankOrNA s); [discriminate|].
    destruct (includes booleanLiterals s); [reflexivity|].
    destruct (test INT_RE s); [discriminate|].
    destruct (test FLOAT_RE s); [discriminate|].
    destruct (HostDate.Date_parse rt s); [|discriminate].
    destruct (localMidnight rt z); discriminate.
  - intros H. now rewrite (literal_not_blank s H), H.
Qed.

(** X2. A string is classified [int] exactly when it matches [/^-?\d+$/]
    and is neither ["0"] nor ["1"]. *)
Theorem detectType_int_iff (rt : HostDate.Runtime) (s : jsstring) :
  detectType rt (VString s) = Tint
  <-> test INT_RE s = true /\ s <> lit "0" /\ s <> lit "1".
Proof.
  rewrite detectType_table. split.
  - destruct (isBlankOrNA s); [discriminate|].
    destruct (includes booleanLiterals s) eqn:L; [discriminate|].
    destruct (test INT_RE s); [intros _|].
    + split; [reflexivity|].
      split; intros ->; discriminate L.
    + destruct (test FLOAT_RE s); [discriminate|].
      destruct (HostDate.Date_parse rt s); [|discriminate].
      destruct (localMidnight rt z); discriminate.
  - intros (Hm & H0 & H1). rewrite (int_not_blank s Hm), Hm.
    destruct (includes booleanLiterals s) eqn:L; [|reflexivity].
    exfalso. apply includes_In in L.
    destruct (INT_RE_head s Hm) as (c & r & -> & Hc).
    assert (Hlo : (45 <= c <= 57)%N).
    { destruct Hc as [D | ->]; [|cbv; split; discriminate].
      unfold is_digit in D. apply andb_true_iff in D as [D1 D2].
      apply N.leb_le in D1, D2. lia. }
    unfold booleanLiterals in L.
    destruct L as [L | [L | [L | [L | [L | [L | []]]]]]];
      try (symmetry in L; contradiction);
      cbv in L; inversion L; subst c; lia.
Qed.

(** X3. A string is classified [float] exactly when it matches
    [/^-?\d*\.\d+$/]: such a string is never taken by an earlier rule. *)
Theorem detectType_float_iff (rt : HostDate.Runtime) (s : jsstring) :
  detectType rt (VString s) = Tfloat <-> test FLOAT_RE s = true.
Proof.
  rewrite detectType_table. split.
  - destruct (isBlankOrNA s); [discriminate|].
    destruct (includes booleanLiterals s); [discriminate|].
    destruct (test INT_RE s); [discriminate|].
    destruct (test FLOAT_RE s); [reflexivity|].
    destruct (HostDate.Date_parse rt s); [|discriminate].
    destruct (localMidnight rt z); discriminate.
  - intros Hm. pose proof (float_has_point s Hm) as Hp.
    destruct (isBlankOrNA s) eqn:B; [destruct (blank_no_point s B Hp)|].
    destruct (includes booleanLiterals s) eqn:L;
      [destruct (literal_no_point s L Hp)|].
    destruct (test INT_RE s) eqn:I; [destruct (int_no_point s I Hp)|].
    now rewrite Hm.
Qed.

(** X4. The host matters for dates only: a value that some host classifies
    [bool], [int] or [float] is classified so by every host, and so are
    [null] and [undefined], which are [text]. *)
Theorem detectType_host_independent (rt rt' : HostDate.Runtime) (v : value) :
  (detectType rt v = Tbool \/ detectType rt v = Tint
   \/ detectType rt v = Tfloat \/ loose_eq_null v = true) ->
  detectType rt' v = detectType rt v.
Proof.
  destruct v as [| |s|s]; try reflexivity.
  - rewrite !detectType_table.
    destruct (isBlankOrNA s); [reflexivity|].
    destruct (includes booleanLiterals s); [reflexivity|].
    destruct (test INT_RE s); [reflexivity|].
    destruct (test FLOAT_RE s); [reflexivity|].
    intros [H | [H | [H | H]]]; try discriminate H;
      destruct (HostDate.Date_parse rt s) as [t|]; try discriminate H;
      destruct (localMidnight rt t); discriminate H.
  - rewrite !detectType_object.
    destruct (test INT_RE s); [reflexivity|].
    destruct (test FLOAT_RE s); [reflexivity|].
    intros [H | [H | [H | H]]]; try discriminate H;
      destruct (HostDate.Date_parse rt s) as [t|]; try discriminate H;
      destruct (localMidnight rt t); discriminate H.
Qed.

Lemma detectType_host_independent_witness :
  detectType (HostDate.iso_host 3600000) (VString (lit "-.5"))
  = detectType (HostDate.iso_host 0) (VString (lit "-.5")).
Proof.
  apply (detectType_host_independent (HostDate.iso_host 0)
           (HostDate.iso_host 3600000) (VString (lit "-.5"))).
  right. right. left. reflexivity.
Defined.

(** X5. A value is classified [date] or [datetime] only if it is a string,
    or an object through its text, that the host parses and that matches
    neither numeric pattern, a string having besides to pass the empty/NA
    and the boolean rule; and then [date] exactly at local midnight: a
    string of digits is never a date, whatever the host reads in it. *)
Theorem detectType_date_only_parsed (rt : HostDate.Runtime) (v : value) :
  detectType rt v = Tdate \/ detectType rt v = Tdatetime ->
  exists s t,
    (v = VString s \/ v = VObject s)
    /\ HostDate.Date_parse rt s = Some t
    /\ (v = VString s ->
        isBlankOrNA s = false /\ includes booleanLiterals s = false)
    /\ test INT_RE s = false
    /\ test FLOAT_RE s = false
    /\ (detectType rt v = Tdate <-> localMidnight rt t = true).
Proof.
  destruct v as [| |s|s]; try (intros [H | H]; discriminate H).
  - rewrite !detectType_table.
    destruct (isBlankOrNA s) eqn:B; [intros [H | H]; discriminate H|].
    destruct (includes booleanLiterals s) eqn:L;
      [intros [H | H]; discriminate H|].
    destruct (test INT_RE s) eqn:I; [intros [H | H]; discriminate H|].
    destruct (test FLOAT_RE s) eqn:F; [intros [H | H]; discriminate H|].
    destruct (HostDate.Date_parse rt s) as [t|] eqn:P;
      [|intros [H | H]; discriminate H].
    intros _. exists s, t. repeat split; auto.
    + destruct (localMidnight rt t); [reflexivity | discriminate].
    + intros ->. reflexivity.
  - rewrite !detectType_object.
    destruct (test INT_RE s) eqn:I; [intros [H | H]; discriminate H|].
    destruct (test FLOAT_RE s) eqn:F; [intros [H | H]; discriminate H|].
    destruct (HostDate.Date_parse rt s) as [t|] eqn:P;
      [|intros [H | H]; discriminate H].
    intros _. exists s, t. repeat split; auto; try discriminate.
    + destruct (localMidnight rt t); [reflexivity | discriminate].
    + intros ->. reflexivity.
Qed.

Lemma detectType_date_only_parsed_witness :
  exists s t,
    VString (lit "2024-02-29") = VString s
    /\ HostDate.Date_parse (HostDate.iso_host 0) s = Some t
    /\ localMidnight (HostDate.iso_host 0) t = true.
Proof.
  destruct (detectType_date_only_parsed (HostDate.iso_host 0)
              (VString (lit "2024-02-29")) (or_introl eq_refl))
    as (s & t & [E | E] & P & _ & _ & _ & M); [|discriminate E].
  exists s, t. split; [exact E|]. split; [exact P|].
  apply M. inversion E; subst. reflexivity.
Defined.

(** X6. A string that ends with a point, such as ["5."], matches neither
    numeric pattern, so it is never classified [int] or [float]. *)
Theorem trailing_point_not_numeric (rt : HostDate.Runtime) (s : jsstring) :
  test INT_RE (s ++ lit ".") = false
  /\ test FLOAT_RE (s ++ lit ".") = false
  /\ detectType rt (VString (s ++ lit ".")) <> Tint
  /\ detectType rt (VString (s ++ lit ".")) <> Tfloat.
Proof.
  assert (Hi : test INT_RE (s ++ lit ".") = false).
  { destruct (test INT_RE (s ++ lit ".")) eqn:E; [|reflexivity].
    exfalso. apply (int_no_point _ E). apply in_or_app. right. now left. }
  assert (Hf : test FLOAT_RE (s ++ lit ".") = false).
  { destruct (test FLOAT_RE (s ++ lit ".")) eqn:E; [|reflexivity].
    apply float_ends_with_digit in E. change (lit ".") with [cu "."] in E.
    rewrite last_last in E. discriminate E. }
  repeat split; try assumption; rewrite detectType_table, Hi, Hf;
    destruct (isBlankOrNA (s ++ lit ".")); try discriminate;
    destruct (includes booleanLiterals (s ++ lit ".")); try discriminate;
    destruct (HostDate.Date_parse rt (s ++ lit ".")) as [t|];
    try discriminate;
    destruct (localMidnight rt t); discriminate.
Qed.

(* ===================================================================== *)
(** ** Further properties of the dictionary *)
(* ===================================================================== *)

Section DictionaryFacts.

Variable rt : HostDate.Runtime.

Lemma rank_inj (t t' : TypeTag) : rank t = rank t' -> t = t'.
Proof. destruct t, t'; simpl; congruence. Qed.

(** The tally of a column whose values all have the type [t]. *)
Lemma scan_counts_homogeneous (header : jsstring) (data : list (object value))
  (t : TypeTag) :
  (forall row, In row data -> detectType rt (row_get row header) = t) ->
  fst (scanColumn rt header data) = setCount zeroCounts t (length data).
Proof.
  intros Hall. apply counts_ext. intros t'. unfold scanColumn.
  rewrite scan_count, count_setCount. unfold occurrences.
  induction data as [|row data IH]; cbn [filter length].
  - destruct t, t'; reflexivity.
  - rewrite (Hall row (or_introl eq_refl)).
    specialize (IH (fun r Hr => Hall r (or_intror Hr))).
    destruct (Nat.eqb (rank t) (rank t')); cbn [length]; simpl in *; lia.
Qed.

Lemma no_content_text (v : value) :
  hasContent v = false -> detectType rt v = Ttext.
Proof.
  destruct v as [| |s|s]; try reflexivity; [|discriminate].
  unfold hasContent. cbn [strict_eq_str loose_eq_null ToString].
  rewrite andb_true_r, negb_false_iff. intros E.
  apply str_eqb_eq in E. subst s. reflexivity.
Qed.

Lemma chooseType_text_only (n : nat) :
  chooseType (setCount zeroCounts Ttext n) = Ttext.
Proof. destruct n; reflexivity. Qed.

End DictionaryFacts.

(** X7. A type whose counter is above all the others is the one chosen, and
    a chosen type other than [text] has a counter above zero. *)
Theorem chooseType_majority (tc : TypeCounts) (t : TypeTag) :
  ((forall t', t' <> t -> count tc t' < count tc t) -> chooseType tc = t)
  /\ (chooseType tc <> Ttext -> 0 < count tc (chooseType tc)).
Proof.
  split.
  - intros Hmaj. pose proof (chooseType_max tc t) as Hmax.
    apply rank_inj. destruct (Nat.eq_dec (rank (chooseType tc)) (rank t))
      as [E | Hne]; [exact E|].
    assert (chooseType tc <> t) as Hd by congruence.
    apply Hmaj in Hd. lia.
  - intros Hne. pose proof (chooseType_first tc Ttext) as H.
    destruct (chooseType tc); try congruence; cbn [rank] in H; lia.
Qed.

Lemma chooseType_majority_witness :
  chooseType {| c_text := 2; c_int := 1; c_float := 5; c_bool := 4;
                c_datetime := 0; c_date := 4 |} = Tfloat.
Proof.
  apply (proj1 (chooseType_majority
                  {| c_text := 2; c_int := 1; c_float := 5; c_bool := 4;
                     c_datetime := 0; c_date := 4 |} Tfloat)).
  intros t' Hne. destruct t'; cbn; try lia. congruence.
Defined.

(** X8. On a table with a first row [generateDataDictionary] returns an
    array with one entry per key of that row, in the order of
    [Object.keys]; a key that the first row does not own gets no entry;
    every description is empty, every type is the choice made from the
    tally of the column, and every example is the first value with content
    of the column. *)
Theorem generateDataDictionary_columns (rt : HostDate.Runtime)
  (row0 : object value) (rest : list (object value)) :
  exists es,
    generateDataDictionary rt (row0 :: rest) = DArray es
    /\ map column es = Object_keys row0
    /\ (forall k, In k (map column es) <-> In k (map fst row0))
    /\ Forall (fun e =>
                 description e = lit ""
                 /\ type e
                    = chooseType (fst (scanColumn rt (column e) (row0 :: rest)))
                 /\ example e
                    = firstWithContent
                        (columnValues (column e) (row0 :: rest))) es.
Proof.
  eexists. split; [reflexivity|].
  assert (Hcols : forall keys,
            map column
              (map (fun header =>
                      let '(typeCounts, example) :=
                        scanColumn rt header (row0 :: rest) in
                      {| column := header; type := chooseType typeCounts;
                         example := example; description := lit "" |}) keys)
            = keys).
  { induction keys as [|k keys IH]; [reflexivity|]. cbn [map].
    rewrite IH. destruct (scanColumn rt k (row0 :: rest)). reflexivity. }
  split; [apply Hcols|]. split.
  - intros k. rewrite Hcols. apply Object_keys_In.
  - apply Forall_forall. intros e He. apply in_map_iff in He as (k & <- & _).
    assert (Hex : snd (scanColumn rt k (row0 :: rest))
                  = firstWithContent (columnValues k (row0 :: rest)))
      by (unfold scanColumn; now rewrite scan_example).
    specialize (Hcols [k]). cbn [map] in Hcols. injection Hcols as Hc.
    rewrite Hc, <- Hex.
    destruct (scanColumn rt k (row0 :: rest)). repeat split.
Qed.

Lemma get_In {V : Type} (o : object V) (k : jsstring) (v : V) :
  get o k = Some v -> In (k, v) o.
Proof.
  induction o as [|[k0 v0] o IH]; simpl; [discriminate|].
  destruct (str_eqb k0 k) eqn:E.
  - apply str_eqb_eq in E. subst k0. intros H. injection H as ->. now left.
  - intros H. right. apply IH, H.
Qed.

(** The members of [Object.prototype] are objects, which have content. *)
Lemma inherited_has_content (header : jsstring) (member : value) :
  get Object_prototype header = Some member -> hasContent member = true.
Proof.
  intros H. apply get_In in H. unfold Object_prototype in H.
  repeat (destruct H as [H | H]; [injection H as _ <-; reflexivity|]).
  destruct H.
Qed.

(** When a row lacks a key, the lookup has content exactly when the key is
    the name of a member of [Object.prototype]. *)
Lemma missing_key_content (row : object value) (header : jsstring) :
  get row header = None ->
  hasContent (row_get row header) = false
  <-> get Object_prototype header = None.
Proof.
  intros Hrow. unfold row_get. rewrite Hrow.
  destruct (get Object_prototype header) as [m|] eqn:P.
  - rewrite (inherited_has_content header m P). split; discriminate.
  - split; reflexivity.
Qed.

(** X9. In the dictionary of a table the example of an entry is [null] or a
    value that stands in the column of the entry; it is never [undefined]
    nor the empty string; and it is a string when the name of the column is
    not the name of a member of [Object.prototype] and no cell of the table
    is an object.  (When the name is one, [constructor] say, and a row
    lacks the key, the value of that row is the inherited member, which
    can be taken as the example.) *)
Theorem example_null_or_from_column (rt : HostDate.Runtime)
  (row0 : object value) (rest : list (object value)) :
  exists es,
    generateDataDictionary rt (row0 :: rest) = DArray es
    /\ Forall (fun e =>
                 (example e = VNull
                  \/ In (example e) (columnValues (column e) (row0 :: rest))
                     /\ example e <> VUndefined
                     /\ example e <> VString [])
                 /\ (get Object_prototype (column e) = None ->
                     (forall row k text,
                         In row (row0 :: rest) -> ~ In (k, VObject text) row) ->
                     example e = VNull
                     \/ exists s,
                          example e = VString s /\ s <> []
                          /\ In (VString s)
                               (columnValues (column e) (row0 :: rest)))) es.
Proof.
  exists (map (entryFor rt (row0 :: rest)) (Object_keys row0)).
  split; [apply generateDataDictionary_entries|].
  apply Forall_forall. intros e He. apply in_map_iff in He as (h & <- & _).
  destruct (entryFor_fields rt (row0 :: rest) h) as (-> & _ & -> & _).
  rewrite scan_example_first. unfold firstWithContent.
  destruct (find hasContent (columnValues h (row0 :: rest))) as [v|] eqn:F;
    [|split; [now left | intros _ _; now left]].
  apply find_some in F as [Hin Hc]. split.
  - right. split; [exact Hin|]. split; intros ->; discriminate Hc.
  - intros Hproto Hcells. right.
    destruct v as [| |s|text]; try discriminate Hc.
    + exists s. repeat split; [|exact Hin]. intros ->. discriminate Hc.
    + exfalso. unfold columnValues in Hin.
      apply in_map_iff in Hin as (row & Hv & Hrow).
      unfold row_get in Hv. rewrite Hproto in Hv.
      destruct (get row h) as [w|] eqn:G; [|discriminate Hv]. subst w.
      apply get_In in G. exact (Hcells row h text Hrow G).
Qed.

Example inherited_member_example :
  generateDataDictionary (HostDate.iso_host 0)
    [ [(lit "constructor", VString (lit ""))]; [] ]
  = DArray
      [ {| column := lit "constructor"; type := Ttext;
           example := nativeFunction (lit "Object");
           description := lit "" |} ].
Proof. reflexivity. Qed.

(** X10. In the dictionary of a table, a column in which no row has a value
    with content has the type [text] and the example [null]; a row has no
    such value when its value is [null] or the empty string, and, when it
    lacks the key, exactly when the name of the column is not the name of a
    member of [Object.prototype]. *)
Theorem empty_column_text_null (rt : HostDate.Runtime)
  (row0 : object value) (rest : list (object value)) :
  exists es,
    generateDataDictionary rt (row0 :: rest) = DArray es
    /\ Forall (fun e =>
                 (forall row, In row (row0 :: rest) ->
                              hasContent (row_get row (column e)) = false) ->
                 type e = Ttext /\ example e = VNull) es
    /\ (forall row header,
           get row header = None ->
           hasContent (row_get row header) = false
           <-> get Object_prototype header = None).
Proof.
  exists (map (entryFor rt (row0 :: rest)) (Object_keys row0)).
  split; [apply generateDataDictionary_entries|].
  split; [|apply missing_key_content].
  apply Forall_forall. intros e He. apply in_map_iff in He as (h & <- & _).
  destruct (entryFor_fields rt (row0 :: rest) h) as (-> & -> & -> & _).
  intros Hall. split.
  - rewrite (scan_counts_homogeneous rt h (row0 :: rest) Ttext).
    + apply chooseType_text_only.
    + intros row Hin. apply no_content_text, Hall, Hin.
  - rewrite scan_example_first. apply firstWithContent_none.
    intros v Hin. unfold columnValues in Hin.
    apply in_map_iff in Hin as (row & <- & Hrow). apply Hall, Hrow.
Qed.

Lemma empty_column_text_null_witness :
  exists es,
    generateDataDictionary (HostDate.iso_host 0)
      [ [(lit "n", VString (lit "1")); (lit "note", VString (lit ""))];
        [(lit "n", VString (lit "2")); (lit "note", VNull)];
        [(lit "n", VString (lit "3"))] ]
    = DArray es
    /\ Forall (fun e => column e = lit "note" ->
                        type e = Ttext /\ example e = VNull) es.
Proof.
  destruct (empty_column_text_null (HostDate.iso_host 0)
              [(lit "n", VString (lit "1")); (lit "note", VString (lit ""))]
              [ [(lit "n", VString (lit "2")); (lit "note", VNull)];
                [(lit "n", VString (lit "3"))] ])
    as (es & E & F & _).
  exists es. split; [exact E|].
  apply (Forall_impl _ (P := fun e =>
           (forall row,
               In row
                 [ [(lit "n", VString (lit "1"));
                    (lit "note", VString (lit ""))];
                   [(lit "n", VString (lit "2")); (lit "note", VNull)];
                   [(lit "n", VString (lit "3"))] ] ->
               hasContent (row_get row (column e)) = false) ->
           type e = Ttext /\ example e = VNull)); [|exact F].
  intros e He Hc. apply He. rewrite Hc.
  intros row [<- | [<- | [<- | []]]]; reflexivity.
Defined.

(** X11. After the scan of a column each counter is the number of rows
    whose value has that type. *)
Theorem tally_counts_rows_of_type (rt : HostDate.Runtime) (header : jsstring)
  (data : list (object value)) (t : TypeTag) :
  count (fst (scanColumn rt header data)) t
  = length (filter (fun row =>
                      Nat.eqb (rank (detectType rt (row_get row header)))
                              (rank t)) data)
  /\ (forall row,
         detectType rt (row_get row header) = t <->
         Nat.eqb (rank (detectType rt (row_get row header))) (rank t) = true).
Proof.
  split.
  - unfold scanColumn. rewrite scan_count. destruct t; reflexivity.
  - intros row. rewrite Nat.eqb_eq. split; [congruence | apply rank_inj].
Qed.

(* ===================================================================== *)
(** ** Further properties of ckan.js *)
(* ===================================================================== *)

Section CompareFacts.

Import Ckan.

Lemma declaredType_In (schema : list Field) (k : jsstring) :
  In k (names schema) <-> declaredType schema k <> None.
Proof.
  split; [apply declaredType_Some|].
  intros H. destruct (in_dec (list_eq_dec N.eq_dec) k (names schema))
    as [Hin | Hnin]; [exact Hin|].
  now apply declaredType_None in Hnin.
Qed.

Lemma filter_nil {A : Type} (p : A -> bool) (l : list A) :
  filter p l = [] <-> forall x, In x l -> p x = false.
Proof.
  induction l as [|x l IH]; simpl.
  - split; [intros _ y [] | reflexivity].
  - destruct (p x) eqn:E.
    + split; [discriminate|]. intros H. specialize (H x (or_introl eq_refl)).
      congruence.
    + rewrite IH. split.
      * intros H y [<- | Hy]; auto.
      * intros H y Hy. apply H. now right.
Qed.

(** [typeMismatches] is empty when the destination declares, for every
    name of the source, the type that the source declares. *)
Lemma typeMismatches_nil (src dst : list Field) :
  typeMismatches (compareFields src dst) = []
  <-> forall k, In k (names src) -> declaredType src k = declaredType dst k.
Proof.
  unfold compareFields. cbn [typeMismatches]. rewrite filter_nil. split.
  - intros H k Hin. apply schemaDict_keys_In in Hin. specialize (H k Hin).
    rewrite !schemaDict_get in H.
    destruct (strict_neq (declaredType src k) (declaredType dst k)) eqn:E;
      [discriminate|].
    destruct (declaredType src k) as [a|], (declaredType dst k) as [b|];
      simpl in E; try discriminate; [|reflexivity].
    apply negb_false_iff, str_eqb_eq in E. now subst.
  - intros H k Hin. apply schemaDict_keys_In in Hin.
    rewrite !schemaDict_get, (H k Hin).
    destruct (declaredType dst k); simpl; [|reflexivity].
    now rewrite str_eqb_refl.
Qed.

Lemma join_length (l : list jsstring) :
  l <> [] ->
  S (length (join l)) = list_sum (map (fun k => S (length k)) l).
Proof.
  induction l as [|x l IH]; [congruence|]. intros _.
  rewrite join_cons. destruct l as [|y l].
  - simpl. rewrite app_nil_r. lia.
  - specialize (IH ltac:(discriminate)).
    rewrite length_app. cbn [length].
    unfold list_sum in *. cbn [map fold_right] in *. lia.
Qed.

Lemma list_sum_perm (l l' : list nat) :
  Permutation l l' -> list_sum l = list_sum l'.
Proof.
  induction 1; simpl; lia.
Qed.

Lemma NoDup_incl_split {A : Type} (l1 l2 : list A) :
  NoDup l1 -> incl l1 l2 -> exists l', Permutation l2 (l1 ++ l').
Proof.
  intros N. revert l2. induction N as [|x l1 Hx N IH]; intros l2 Hincl.
  - exists l2. reflexivity.
  - assert (Hin : In x l2) by (apply Hincl; now left).
    apply in_split in Hin as (a & b & ->).
    destruct (IH (a ++ b)) as (l' & P).
    + intros y Hy. assert (In y (a ++ x :: b)) as H by (apply Hincl; now right).
      apply in_app_or in H as [H | [H | H]].
      * apply in_or_app. now left.
      * subst y. contradiction.
      * apply in_or_app. now right.
    + exists l'. rewrite <- Permutation_middle. cbn [app]. now constructor.
Qed.

(** When the names of the source are names of the destination and none of
    the latter is empty, [sameNames] tells whether the destination has
    further names. *)
Lemma sameNames_of_included (src dst : list Field) :
  ~ In [] (names dst) ->
  incl (names src) (names dst) ->
  sameNames (compareFields src dst) = true ->
  sameNameSet src dst.
Proof.
  intros Hne Hincl Hs. unfold compareFields in Hs. cbn [sameNames] in Hs.
  apply str_eqb_eq in Hs. apply (f_equal (@length N)) in Hs.
  set (ka := Object_keys (schemaDict src)) in *.
  set (kb := Object_keys (schemaDict dst)) in *.
  assert (Hab : incl ka kb).
  { intros k Hk. apply schemaDict_keys_In. apply Hincl.
    now apply schemaDict_keys_In. }
  destruct (NoDup_incl_split ka kb (schemaDict_keys_NoDup src) Hab)
    as (l' & P).
  assert (Hw : forall l : list jsstring,
             list_sum (map (fun k => S (length k)) (sort l))
             = list_sum (map (fun k => S (length k)) l)).
  { intros l. apply list_sum_perm, Permutation_map, sort_perm. }
  assert (Hkb : list_sum (map (fun k => S (length k)) kb)
                = list_sum (map (fun k => S (length k)) ka)
                  + list_sum (map (fun k => S (length k)) l')).
  { rewrite (list_sum_perm _ _ (Permutation_map _ P)), map_app.
    apply list_sum_app. }
  assert (Hl' : l' = []).
  { destruct l' as [|z l']; [reflexivity|]. exfalso.
    assert (Hz : In z kb)
      by (apply (Permutation_in _ (Permutation_sym P)), in_or_app;
          right; now left).
    assert (Hzne : z <> []).
    { intros ->. apply Hne. now apply schemaDict_keys_In. }
    assert (Hsb : sort kb <> []).
    { intros E. apply (Permutation_in _ (Permutation_sym (sort_perm kb))) in Hz.
      rewrite E in Hz. destruct Hz. }
    pose proof (join_length (sort kb) Hsb) as Lb. rewrite Hw, Hkb in Lb.
    unfold list_sum in Lb. cbn [map fold_right] in Lb.
    fold (list_sum (map (fun k => S (length k)) l')) in Lb.
    fold (list_sum (map (fun k => S (length k)) ka)) in Lb.
    destruct z as [|c z]; [congruence|]. cbn [length] in Lb.
    destruct (sort ka) as [|a sa] eqn:Ea.
    - cbn [join length] in Hs.
      assert (ka = []) as Eka.
      { pose proof (sort_perm ka) as Pa. rewrite Ea in Pa.
        now apply Permutation_nil in Pa. }
      rewrite Eka in Lb. cbn in Lb. lia.
    - pose proof (join_length (a :: sa) ltac:(discriminate)) as La.
      rewrite <- Ea, Hw in La. rewrite <- Ea in Hs. lia. }
  subst l'. rewrite app_nil_r in P.
  apply same_keys_perm. symmetry. exact P.
Qed.

Lemma sameTypes_sameNameSet (src dst : list Field) :
  (forall k, declaredType src k = declaredType dst k) -> sameNameSet src dst.
Proof.
  intros H k. rewrite !declaredType_In, H. reflexivity.
Qed.

Lemma compareMessage_perfect (c : Comparison) :
  Page.compareMessage c = perfectText
  <-> sameNames c = true /\ typeMismatches c = [].
Proof.
  unfold Page.compareMessage, perfectText.
  destruct (sameNames c), (typeMismatches c) as [|k l]; cbn;
    (split; [try discriminate; auto | intros [? ?]; try discriminate; auto]).
Qed.

End CompareFacts.

(** X12. [schemaDict] binds each id of the schema, once, to the type of the
    last field of that id, and binds no other name: a field added to a
    schema overrides the fields of its id and leaves the other names as
    they were. *)
Theorem schemaDict_last_declaration (schema : list Ckan.Field)
  (f : Ckan.Field) (k : jsstring) :
  get (Ckan.schemaDict (schema ++ [f])) k
  = (if str_eqb (Ckan.id f) k then Some (Ckan.type f)
     else get (Ckan.schemaDict schema) k)
  /\ (get (Ckan.schemaDict schema) k = None <-> ~ In k (names schema))
  /\ (In k (Object_keys (Ckan.schemaDict schema)) <-> In k (names schema))
  /\ NoDup (Object_keys (Ckan.schemaDict schema)).
Proof.
  split; [|split; [|split]].
  - unfold Ckan.schemaDict, Object_fromEntries.
    rewrite map_app, fold_left_app. cbn [map fold_left fst snd].
    apply get_set.
  - rewrite schemaDict_get. split.
    + intros H Hin. now apply declaredType_In in Hin.
    + apply declaredType_None.
  - apply schemaDict_keys_In.
  - apply schemaDict_keys_NoDup.
Qed.

(** X13. A schema compared with itself has [sameNames] true and no type
    mismatch, whatever its names are. *)
Theorem compareFields_same_schema (schema : list Ckan.Field) :
  Ckan.compareFields schema schema
  = {| Ckan.sameNames := true; Ckan.typeMismatches := [] |}.
Proof.
  assert (Hm : Ckan.typeMismatches (Ckan.compareFields schema schema) = [])
    by (apply typeMismatches_nil; reflexivity).
  unfold Ckan.compareFields in *. cbn [Ckan.typeMismatches] in Hm.
  rewrite Hm, str_eqb_refl. reflexivity.
Qed.

(** X14. When no field of the destination has an empty name, the page
    reports a perfect match exactly when the two schemas declare the same
    type for every name. *)
Theorem perfect_match_iff_same_types (src dst : list Ckan.Field) :
  ~ In [] (names dst) ->
  Page.compareMessage (Ckan.compareFields src dst) = perfectText
  <-> forall k, declaredType src k = declaredType dst k.
Proof.
  intros Hne. rewrite compareMessage_perfect, typeMismatches_nil. split.
  - intros [Hs Hm] k.
    assert (Hincl : incl (names src) (names dst)).
    { intros x Hx. apply declaredType_In. rewrite <- (Hm x Hx).
      now apply declaredType_In. }
    pose proof (sameNames_of_included src dst Hne Hincl Hs) as Hset.
    destruct (in_dec (list_eq_dec N.eq_dec) k (names src)) as [Hin | Hnin].
    + apply Hm, Hin.
    + rewrite (declaredType_None src k Hnin).
      symmetry. apply declaredType_None. intros Hd. apply Hnin, Hset, Hd.
  - intros H. split.
    + apply sameNames_of_same_set, sameTypes_sameNameSet, H.
    + intros k _. apply H.
Qed.

Lemma perfect_match_iff_same_types_witness :
  let a := {| Ckan.id := lit "a"; Ckan.type := lit "text";
              Ckan.info := None |} in
  let b := {| Ckan.id := lit "b"; Ckan.type := lit "int";
              Ckan.info := None |} in
  Page.compareMessage (Ckan.compareFields [a; b] [b; a]) = perfectText.
Proof.
  intros a b.
  apply (perfect_match_iff_same_types [a; b] [b; a]).
  - cbv. intuition discriminate.
  - intros k. unfold declaredType. cbn [rev app find Ckan.id a b].
    destruct (str_eqb (lit "a") k) eqn:Ea, (str_eqb (lit "b") k) eqn:Eb;
      try reflexivity.
    apply str_eqb_eq in Ea, Eb. subst k. discriminate Eb.
Defined.

(** X15. When the destination declares for every name of the source the
    type of the source, and has a name that the source lacks, none of its
    names being empty, the page shows no name but the text "Field lists
    differ". *)
Theorem extra_fields_message (src dst : list Ckan.Field) :
  ~ In [] (names dst) ->
  (forall k, In k (names src) -> declaredType src k = declaredType dst k) ->
  (exists k, In k (names dst) /\ ~ In k (names src)) ->
  Page.compareMessage (Ckan.compareFields src dst) = listsDifferText.
Proof.
  intros Hne Hm (k & Hd & Hs).
  assert (Hincl : incl (names src) (names dst)).
  { intros x Hx. apply declaredType_In. rewrite <- (Hm x Hx).
    now apply declaredType_In. }
  assert (Hsame : Ckan.sameNames (Ckan.compareFields src dst) = false).
  { destruct (Ckan.sameNames (Ckan.compareFields src dst)) eqn:E;
      [|reflexivity].
    exfalso. apply Hs. apply (sameNames_of_included src dst Hne Hincl E), Hd. }
  apply typeMismatches_nil in Hm.
  unfold Page.compareMessage. rewrite Hsame, Hm. reflexivity.
Qed.

Lemma extra_fields_message_witness :
  let a := {| Ckan.id := lit "a"; Ckan.type := lit "text";
              Ckan.info := None |} in
  let b := {| Ckan.id := lit "b"; Ckan.type := lit "int";
              Ckan.info := None |} in
  Page.compareMessage (Ckan.compareFields [a] [a; b]) = listsDifferText.
Proof.
  intros a b.
  apply (extra_fields_message [a] [a; b]).
  - cbv. intuition discriminate.
  - intros k [<- | []]. reflexivity.
  - exists (lit "b"). split; [right; now left|].
    intros [E | []]. discriminate E.
Defined.

(** The fields sent when [_id] stands nowhere but at the head. *)
Lemma fieldsToSend_without_id_head (fields : list Ckan.Field) :
  ~ In (lit "_id") (names (tl fields)) ->
  Ckan.fieldsToSend fields = withoutId fields
  /\ ~ In (lit "_id") (names (Ckan.fieldsToSend fields)).
Proof.
  intros Htl.
  assert (Hrest : forall l, ~ In (lit "_id") (names l) -> withoutId l = l).
  { induction l as [|g l IH]; [reflexivity|]. intros H.
    unfold withoutId in *. cbn [filter].
    destruct (str_eqb (Ckan.id g) (lit "_id")) eqn:E.
    - apply str_eqb_eq in E. exfalso. apply H. now left.
    - cbn [negb]. f_equal. apply IH. intros Hin. apply H. now right. }
  destruct fields as [|f rest]; [split; [reflexivity | intros []]|].
  cbn [tl] in Htl. unfold Ckan.fieldsToSend, withoutId. cbn [nth_error filter].
  fold (withoutId rest). rewrite (Hrest rest Htl).
  destruct (str_eqb (Ckan.id f) (lit "_id")) eqn:E; cbn [negb skipn].
  - split; [reflexivity | exact Htl].
  - split; [reflexivity|]. intros [H | H]; [|contradiction].
    apply str_eqb_neq in E. congruence.
Qed.

(** X16. When [_id] stands nowhere but at the head of the fields, what
    [setDataDictionary] sends is the fields whose id is not [_id], the ones
    that [fieldsToCSV] exports, and no field of id [_id] is sent. *)
Theorem fieldsToSend_without_id (fields : list Ckan.Field) :
  ~ In (lit "_id") (names (tl fields)) ->
  Ckan.fieldsToSend fields = withoutId fields
  /\ ~ In (lit "_id") (names (Ckan.fieldsToSend fields)).
Proof. apply fieldsToSend_without_id_head. Qed.

Lemma fieldsToSend_without_id_witness :
  let i := {| Ckan.id := lit "_id"; Ckan.type := lit "int";
              Ckan.info := None |} in
  let a := {| Ckan.id := lit "a"; Ckan.type := lit "text";
              Ckan.info := None |} in
  Ckan.fieldsToSend [i; a] = withoutId [i; a].
Proof.
  intros i a.
  apply (fieldsToSend_without_id [i; a]).
  cbv. intuition discriminate.
Defined.

(** X17. [cloneDataDictionary] fails when the schema of the source cannot be
    read, whatever the portal would answer to a creation; when it is read,
    the outcome is that of the one [datastore_create] call on the
    destination, made with the fields of the source less a leading [_id]. *)
Theorem cloneDataDictionary_run (portal : Ckan.Request -> option Ckan.Result)
  (site srcId dstId key : jsstring) :
  (portal (searchRequest site srcId key) = None ->
   Ckan.run portal (Ckan.cloneDataDictionary site srcId dstId key) = None)
  /\ (forall r,
         portal (searchRequest site srcId key) = Some r ->
         Ckan.run portal (Ckan.cloneDataDictionary site srcId dstId key)
         = portal (createRequest site dstId
                     (Ckan.fieldsToSend (Ckan.fields r)) key))
  /\ (forall r,
         portal (searchRequest site srcId key) = Some r ->
         ~ In (lit "_id") (names (tl (Ckan.fields r))) ->
         Ckan.run portal (Ckan.cloneDataDictionary site srcId dstId key)
         = portal (createRequest site dstId (withoutId (Ckan.fields r)) key)).
Proof.
  assert (Hrun : forall r,
            portal (searchRequest site srcId key) = Some r ->
            Ckan.run portal (Ckan.cloneDataDictionary site srcId dstId key)
            = portal (createRequest site dstId
                        (Ckan.fieldsToSend (Ckan.fields r)) key)).
  { unfold Ckan.cloneDataDictionary, Ckan.getDataDictionary, Ckan.getSchema,
      Ckan.setDataDictionary, Ckan.ckanCall.
    cbn [Ckan.bind Ckan.run]. fold (searchRequest site srcId key).
    intros r ->. cbn [Ckan.bind Ckan.run].
    fold (createRequest site dstId (Ckan.fieldsToSend (Ckan.fields r)) key).
    destruct (portal _); reflexivity. }
  split; [|split].
  - unfold Ckan.cloneDataDictionary, Ckan.getDataDictionary, Ckan.getSchema,
      Ckan.setDataDictionary, Ckan.ckanCall.
    cbn [Ckan.bind Ckan.run]. fold (searchRequest site srcId key).
    intros ->. reflexivity.
  - exact Hrun.
  - intros r Hr Hid. rewrite (Hrun r Hr).
    now rewrite (proj1 (fieldsToSend_without_id_head (Ckan.fields r) Hid)).
Qed.

Lemma cloneDataDictionary_run_witness :
  let a := {| Ckan.id := lit "a"; Ckan.type := lit "text";
              Ckan.info := None |} in
  Ckan.run (twoResources (lit "s") (lit "d") [a] [])
    (Ckan.cloneDataDictionary (lit "https://portal") (lit "s") (lit "d")
       (lit "key"))
  = None.
Proof.
  intros a.
  rewrite (proj1 (proj2 (cloneDataDictionary_run
                           (twoResources (lit "s") (lit "d") [a] [])
                           (lit "https://portal") (lit "s") (lit "d")
                           (lit "key")))
             {| Ckan.fields := [a] |} eq_refl).
  reflexivity.
Defined.

(* ===================================================================== *)
(** ** Properties of [ckanCall] on the network *)
(* ===================================================================== *)

Section NetFacts.

Variable qs : Ckan.Payload -> jsstring.
Variable json : Ckan.Payload -> jsstring.
Variable net : Net.Fetch -> option Net.Answer.

Lemma ckanCall_cases (site action : jsstring) (payload : Ckan.Payload)
  (apiKey : jsstring) (first : Net.Fetch) :
  first = match apiKey with
          | [] => Net.Get (Net.urlWithQsOf qs site action payload)
          | _ => Net.Post (Net.endpointOf site action) apiKey (json payload)
          end ->
  Net.ckanCall qs json net site action payload apiKey
  = match net first with
    | Some data =>
        if Net.success data then ([first], Net.Returns (Net.result data))
        else (first :: fst (Net.fallback net
                              (Net.urlWithQsOf qs site action payload)),
              snd (Net.fallback net (Net.urlWithQsOf qs site action payload)))
    | None =>
        (first :: fst (Net.fallback net
                         (Net.urlWithQsOf qs site action payload)),
         snd (Net.fallback net (Net.urlWithQsOf qs site action payload)))
    end.
Proof.
  intros ->. unfold Net.ckanCall. cbv zeta.
  destruct (net _) as [data|]; [destruct (Net.success data)|]; reflexivity.
Qed.

End NetFacts.

(** X18. When the first request is answered with [success], [ckanCall]
    returns the result of that answer and issues no other request; the
    request is a POST to the endpoint that carries the key when there is a
    key, and a GET of the URL with the query string when there is none. *)
Theorem ckanCall_first_answer (qs json : Ckan.Payload -> jsstring)
  (net : Net.Fetch -> option Net.Answer) (site action : jsstring)
  (payload : Ckan.Payload) (apiKey : jsstring) (data : Net.Answer) :
  net (match apiKey with
       | [] => Net.Get (Net.urlWithQsOf qs site action payload)
       | _ => Net.Post (Net.endpointOf site action) apiKey (json payload)
       end) = Some data ->
  Net.success data = true ->
  Net.ckanCall qs json net site action payload apiKey
  = ([match apiKey with
      | [] => Net.Get (Net.urlWithQsOf qs site action payload)
      | _ => Net.Post (Net.endpointOf site action) apiKey (json payload)
      end],
     Net.Returns (Net.result data)).
Proof.
  intros Hn Hs. rewrite (ckanCall_cases qs json net site action payload apiKey
                           _ eq_refl).
  now rewrite Hn, Hs.
Qed.

(** X19. When the first request is rejected, or answered without [success]
    (a refusal of the key, say), [ckanCall] issues the call again over
    JSONP, as a GET without the key, and ends as that second request does:
    with its result, with its error message, or with the error of the
    script; the error of the first request is not reported. *)
Theorem ckanCall_falls_back (qs json : Ckan.Payload -> jsstring)
  (net : Net.Fetch -> option Net.Answer) (site action : jsstring)
  (payload : Ckan.Payload) (apiKey : jsstring) :
  let url := Net.urlWithQsOf qs site action payload in
  let first :=
    match apiKey with
    | [] => Net.Get url
    | _ => Net.Post (Net.endpointOf site action) apiKey (json payload)
    end in
  (net first = None
   \/ exists data, net first = Some data /\ Net.success data = false) ->
  Net.ckanCall qs json net site action payload apiKey
  = ([first; Net.Jsonp url],
     match net (Net.Jsonp url) with
     | None => Net.Throws (lit "JSONP load error")
     | Some data' =>
         if Net.success data' then Net.Returns (Net.result data')
         else Net.Throws (Net.messageOr (Net.error_message data')
                            (lit "CKAN JSONP error"))
     end).
Proof.
  intros url first H.
  rewrite (ckanCall_cases qs json net site action payload apiKey first eq_refl).
  destruct H as [-> | (data & -> & ->)]; reflexivity.
Qed.

(** X20. Whatever the network does, [ckanCall] issues one or two requests;
    a second one is the JSONP request of the URL with the query string; a
    call without key issues no POST; and a call that returns, returns the
    result of the answer with [success] to the last request it issued. *)
Theorem ckanCall_requests (qs json : Ckan.Payload -> jsstring)
  (net : Net.Fetch -> option Net.Answer) (site action : jsstring)
  (payload : Ckan.Payload) (apiKey : jsstring) :
  let reqs := fst (Net.ckanCall qs json net site action payload apiKey) in
  let out := snd (Net.ckanCall qs json net site action payload apiKey) in
  1 <= length reqs <= 2
  /\ (forall q, In q (tl reqs) ->
                q = Net.Jsonp (Net.urlWithQsOf qs site action payload))
  /\ (apiKey = [] -> forall url a b, ~ In (Net.Post url a b) reqs)
  /\ (forall r, out = Net.Returns r ->
        exists q data,
          last reqs q = q /\ In q reqs /\ net q = Some data
          /\ Net.success data = true /\ Net.result data = r).
Proof.
  cbv zeta.
  rewrite (ckanCall_cases qs json net site action payload apiKey _ eq_refl).
  set (url := Net.urlWithQsOf qs site action payload).
  set (first := match apiKey with
                | [] => Net.Get url
                | _ => Net.Post (Net.endpointOf site action) apiKey
                         (json payload)
                end).
  assert (Hpost : apiKey = [] -> forall u a b, first <> Net.Post u a b).
  { intros -> u a b. discriminate. }
  assert (Hfb : forall r,
             snd (Net.fallback net url) = Net.Returns r ->
             exists data, net (Net.Jsonp url) = Some data
                          /\ Net.success data = true /\ Net.result data = r).
  { intros r. unfold Net.fallback. cbn [snd].
    destruct (net (Net.Jsonp url)) as [d|]; [|discriminate].
    destruct (Net.success d) eqn:S; [|discriminate].
    intros E. inversion E. eauto. }
  assert (Hfail :
            1 <= length (first :: fst (Net.fallback net url)) <= 2
            /\ (forall q, In q (tl (first :: fst (Net.fallback net url))) ->
                          q = Net.Jsonp url)
            /\ (apiKey = [] -> forall u a b,
                  ~ In (Net.Post u a b) (first :: fst (Net.fallback net url)))
            /\ (forall r, snd (Net.fallback net url) = Net.Returns r ->
                  exists q data,
                    last (first :: fst (Net.fallback net url)) q = q
                    /\ In q (first :: fst (Net.fallback net url))
                    /\ net q = Some data
                    /\ Net.success data = true /\ Net.result data = r)).
  { cbn [Net.fallback fst tl length last In].
    split; [lia|]. split; [intros q [<- | []]; reflexivity|]. split.
    - intros Hk u a b [E | [E | []]]; [|discriminate E].
      now apply (Hpost Hk u a b).
    - intros r Hr. destruct (Hfb r Hr) as (d & Hn & Hs & Hres).
      exists (Net.Jsonp url), d. repeat split; auto. }
  destruct (net first) as [data|] eqn:Hn; [|exact Hfail].
  destruct (Net.success data) eqn:Hs; [|exact Hfail].
  cbn [fst snd tl length last In].
  split; [lia|]. split; [intros q []|]. split.
  - intros Hk u a b [E | []]. now apply (Hpost Hk u a b).
  - intros r E. inversion E. exists first, data. repeat split; auto.
Qed.

Lemma ckanCall_first_answer_witness :
  Net.ckanCall sampleQuery sampleBody openNet (lit "https://portal")
    (lit "datastore_search") (Ckan.DatastoreSearch (lit "r") 0) (lit "")
  = ([Net.Get (lit "https://portal/api/3/action/datastore_search?resource_id=r&limit=0")],
     Net.Returns {| Ckan.fields := [] |}).
Proof.
  apply (ckanCall_first_answer sampleQuery sampleBody openNet
           (lit "https://portal") (lit "datastore_search")
           (Ckan.DatastoreSearch (lit "r") 0) (lit "")
           {| Net.success := true; Net.result := {| Ckan.fields := [] |};
              Net.error_message := None |}); reflexivity.
Defined.

Lemma ckanCall_falls_back_witness :
  Net.ckanCall sampleQuery sampleBody refusingNet (lit "https://portal")
    (lit "datastore_create") (Ckan.DatastoreCreate (lit "r") [] true)
    (lit "key")
  = ([Net.Post (lit "https://portal/api/3/action/datastore_create")
        (lit "key") (lit "{}");
      Net.Jsonp (lit "https://portal/api/3/action/datastore_create?resource_id=r")],
     Net.Returns {| Ckan.fields := [] |}).
Proof.
  apply (ckanCall_falls_back sampleQuery sampleBody refusingNet
           (lit "https://portal") (lit "datastore_create")
           (Ckan.DatastoreCreate (lit "r") [] true) (lit "key")).
  right. eexists. split; reflexivity.
Defined.

(* ===================================================================== *)
(** ** Properties of the CSV export *)
(* ===================================================================== *)

Section CsvFacts.

Import Page.

Lemma doubleQuotes_id (s : jsstring) :
  ~ In quote s -> doubleQuotes s = s.
Proof.
  induction s as [|c s IH]; [reflexivity|]. intros H. cbn [doubleQuotes].
  destruct (N.eqb_spec c quote) as [-> | _].
  - exfalso. apply H. now left.
  - f_equal. apply IH. intros Hin. apply H. now right.
Qed.

(** A cell ends at the first quotation mark that is not doubled. *)
Lemma doubleQuotes_split (x y t t' : jsstring) :
  hd_error t <> Some quote -> hd_error t' <> Some quote ->
  doubleQuotes x ++ quote :: t = doubleQuotes y ++ quote :: t' ->
  x = y /\ t = t'.
Proof.
  revert y. induction x as [|c x IH]; intros y Ht Ht' E.
  - destruct y as [|d y]; cbn [doubleQuotes app] in E.
    + injection E as E. auto.
    + destruct (N.eqb_spec d quote) as [-> | Hd]; cbn [app] in E.
      * injection E as E. subst t. exfalso. now apply Ht.
      * injection E as E _. congruence.
  - destruct y as [|d y]; cbn [doubleQuotes app] in E.
    + destruct (N.eqb_spec c quote) as [-> | Hc]; cbn [app] in E.
      * injection E as E. subst t'. exfalso. now apply Ht'.
      * injection E as E _. congruence.
    + destruct (N.eqb_spec c quote) as [-> | Hc],
               (N.eqb_spec d quote) as [-> | Hd]; cbn [app] in E.
      * injection E as E. destruct (IH y Ht Ht' E) as [-> ->]. auto.
      * injection E as E _. congruence.
      * injection E as E _. congruence.
      * injection E as Ec E. subst d.
        destruct (IH y Ht Ht' E) as [-> ->]. auto.
Qed.

Lemma csvRow_cells (f : Ckan.Field) :
  csvRow f
  = join (map quoted
            [ Ckan.id f; Ckan.type f;
              doubleQuotes (orEmpty (Ckan.label (infoOf f)));
              doubleQuotes (orEmpty (Ckan.notes (infoOf f)));
              doubleQuotes (orEmpty (Ckan.example (infoOf f))) ]).
Proof.
  unfold csvRow. cbv zeta.
  destruct (Ckan.example (infoOf f)) as [[|c r]|]; reflexivity.
Qed.

Lemma row_of_cells (a b c d e : jsstring) :
  join (map quoted [a; b; c; d; e])
  = quote :: a ++ quote :: cu "," :: quote :: b ++ quote :: cu "," ::
    quote :: c ++ quote :: cu "," :: quote :: d ++ quote :: cu "," ::
    quote :: e ++ [quote].
Proof.
  unfold quoted. cbn [map join]. change (lit ",") with [cu ","].
  cbn [app]. repeat (rewrite <- app_assoc; cbn [app]). reflexivity.
Qed.

Lemma row_of_cells_inj (a b c d e a' b' c' d' e' : jsstring) :
  join (map quoted [doubleQuotes a; doubleQuotes b; doubleQuotes c;
                    doubleQuotes d; doubleQuotes e])
  = join (map quoted [doubleQuotes a'; doubleQuotes b'; doubleQuotes c';
                      doubleQuotes d'; doubleQuotes e']) ->
  [a; b; c; d; e] = [a'; b'; c'; d'; e'].
Proof.
  rewrite !row_of_cells. intros E.
  inversion E as [E1]. clear E.
  apply doubleQuotes_split in E1 as [-> E1]; try (cbn; discriminate).
  inversion E1 as [E2]. clear E1.
  apply doubleQuotes_split in E2 as [-> E2]; try (cbn; discriminate).
  inversion E2 as [E3]. clear E2.
  apply doubleQuotes_split in E3 as [-> E3]; try (cbn; discriminate).
  inversion E3 as [E4]. clear E3.
  apply doubleQuotes_split in E4 as [-> E4]; try (cbn; discriminate).
  inversion E4 as [E5]. clear E4.
  apply doubleQuotes_split in E5 as [-> _]; try (cbn; discriminate).
  reflexivity.
Qed.

End CsvFacts.

(** X21. A field whose id is [_id] adds nothing to the CSV, wherever it
    stands in the list. *)
Theorem fieldsToCSV_skips_id (before after : list Ckan.Field)
  (f : Ckan.Field) :
  Ckan.id f = lit "_id" ->
  Page.fieldsToCSV (before ++ f :: after) = Page.fieldsToCSV (before ++ after).
Proof.
  intros H. unfold Page.fieldsToCSV. rewrite !filter_app. cbn [filter].
  rewrite H. reflexivity.
Qed.

Lemma fieldsToCSV_skips_id_witness :
  let i := {| Ckan.id := lit "_id"; Ckan.type := lit "int";
              Ckan.info := None |} in
  let a := {| Ckan.id := lit "a"; Ckan.type := lit "text";
              Ckan.info := None |} in
  Page.fieldsToCSV ([a] ++ i :: [a]) = Page.fieldsToCSV ([a] ++ [a]).
Proof.
  intros i a. apply (fieldsToCSV_skips_id [a] [a] i). reflexivity.
Defined.

(** X22. For a list without fields, or with fields of id [_id] only, the CSV
    is the line of the column names and nothing else. *)
Theorem fieldsToCSV_header_only (fields : list Ckan.Field) :
  (forall f, In f fields -> Ckan.id f = lit "_id") ->
  Page.fieldsToCSV fields
  = lit "id,type,label,description,example" ++ [Page.newline].
Proof.
  intros H. unfold Page.fieldsToCSV.
  assert (E : filter (fun f => negb (str_eqb (Ckan.id f) (lit "_id"))) fields
              = []).
  { apply filter_nil. intros f Hf. rewrite (H f Hf). reflexivity. }
  rewrite E. reflexivity.
Qed.

Lemma fieldsToCSV_header_only_witness :
  Page.fieldsToCSV []
  = lit "id,type,label,description,example" ++ [Page.newline].
Proof.
  apply (fieldsToCSV_header_only []). intros f [].
Defined.

(** X23. For fields whose id and type hold no quotation mark, two lines of
    the CSV are equal exactly when the fields have the same id, type,
    label, notes and example, an absent [info] or member counting as an
    empty one: the doubling of the quotation marks loses nothing. *)
Theorem csvRow_injective (f g : Ckan.Field) :
  ~ In Page.quote (Ckan.id f) -> ~ In Page.quote (Ckan.type f) ->
  ~ In Page.quote (Ckan.id g) -> ~ In Page.quote (Ckan.type g) ->
  Page.csvRow f = Page.csvRow g <-> cellsOf f = cellsOf g.
Proof.
  intros Hf1 Hf2 Hg1 Hg2. rewrite !csvRow_cells. unfold cellsOf. split.
  - intros E. apply row_of_cells_inj.
    now rewrite (doubleQuotes_id (Ckan.id f) Hf1),
                (doubleQuotes_id (Ckan.type f) Hf2),
                (doubleQuotes_id (Ckan.id g) Hg1),
                (doubleQuotes_id (Ckan.type g) Hg2).
  - intros E. injection E as E1 E2 E3 E4 E5.
    now rewrite E1, E2, E3, E4, E5.
Qed.

Lemma csvRow_injective_witness :
  let f := {| Ckan.id := lit "a"; Ckan.type := lit "text";
              Ckan.info := None |} in
  let g := {| Ckan.id := lit "a"; Ckan.type := lit "text";
              Ckan.info := Some {| Ckan.label := Some (lit "");
                                   Ckan.notes := None;
                                   Ckan.example := None |} |} in
  Page.csvRow f = Page.csvRow g.
Proof.
  intros f g.
  apply (proj2 (csvRow_injective f g
                  ltac:(cbv; intuition discriminate)
                  ltac:(cbv; intuition discriminate)
                  ltac:(cbv; intuition discriminate)
                  ltac:(cbv; intuition discriminate))).
  reflexivity.
Defined.

Example fieldsToCSV_sample :
  Page.fieldsToCSV
    [ {| Ckan.id := lit "_id"; Ckan.type := lit "int"; Ckan.info := None |};
      {| Ckan.id := lit "year"; Ckan.type := lit "int";
         Ckan.info := Some {| Ckan.label := Some (lit "Year");
                              Ckan.notes := None;
                              Ckan.example := Some (lit "1999") |} |} ]
  = lit "id,type,label,description,example" ++ [Page.newline]
    ++ Page.quoted (lit "year") ++ lit "," ++ Page.quoted (lit "int")
    ++ lit "," ++ Page.quoted (lit "Year") ++ lit "," ++ Page.quoted []
    ++ lit "," ++ Page.quoted (lit "1999").
Proof. reflexivity. Qed.

(** C10. [compareSchemas] on the schema of the one field ["a,b"] and the
    schema of the two fields ["a"] and ["b"]: the two sets of names differ,
    and yet [sameNames] is true, the sorted names being compared after
    their join with commas; [typeMismatches] is as it should be, the one
    name of the source. *)
Theorem compareSchemas_comma_names :
  let src := [ {| Ckan.id := lit "a,b"; Ckan.type := lit "text";
                  Ckan.info := None |} ] in
  let dst := [ {| Ckan.id := lit "a"; Ckan.type := lit "text";
                  Ckan.info := None |};
               {| Ckan.id := lit "b"; Ckan.type := lit "text";
                  Ckan.info := None |} ] in
  Ckan.run (twoResources (lit "s") (lit "d") src dst)
    (Ckan.compareSchemas (lit "https://portal") (lit "s") (lit "d") (lit ""))
  = Some {| Ckan.sameNames := true; Ckan.typeMismatches := [lit "a,b"] |}
  /\ ~ sameNameSet src dst
  /\ join (sort (names src)) = join (sort (names dst)).
Proof.
  intros src dst. split; [reflexivity|]. split; [|reflexivity].
  intros H. destruct (proj1 (H (lit "a,b")) (or_introl eq_refl))
    as [E | [E | []]]; discriminate E.
Qed.
